(** * A shallow embedding of [clean.py]

    The cleaning pipeline of the real-estate price data set: percentile
    truncation, label encoding, k-nearest-neighbour imputation, the
    rule-based filter, the writer and the join with the macro table.

    Conventions of the embedding.
    - A [DataFrame] is row-major: a schema (column name and dtype) and a
      list of rows, each row carrying its index label and its cells.
    - A cell is a number, the float [nan], or a string.  Numbers are exact
      rationals ([Qc]): float64 rounding is not modelled.
    - Python exceptions are the [Raise] results of an error monad.
    - The pandas, numpy, scipy and scikit-learn calls of the script are
      functions on these values; where such a function is modelled on a
      part of its domain only, its comment says so. *)

From Stdlib Require Import QArith Qcanon Qround.
From Stdlib Require Import Structures.OrdersEx.
From stdpp Require Import base numbers list sorting strings gmap.

Local Open Scope Z_scope.

(** ** Exceptions and the error monad *)

Inductive exn :=
| KeyError (key : string)
| NameError (name : string)
| TypeError
| ValueError
| IndexError.

Inductive result (A : Type) :=
| Ok (a : A)
| Raise (e : exn).
Arguments Ok {A} a.
Arguments Raise {A} e.

#[global] Instance result_ret : MRet result := @Ok.
#[global] Instance result_bind : MBind result := λ A B f m,
  match m with Ok a => f a | Raise e => Raise e end.
#[global] Instance result_fmap : FMap result := λ A B f m,
  match m with Ok a => Ok (f a) | Raise e => Raise e end.

(** Monadic map and left fold, left to right, stopping at the first
    exception. *)
Fixpoint mapR {A B} (f : A → result B) (l : list A) : result (list B) :=
  match l with
  | [] => Ok []
  | x :: l => y ← f x; ys ← mapR f l; Ok (y :: ys)
  end.

Fixpoint foldR {A B} (f : B → A → result B) (l : list A) (b : B)
  : result B :=
  match l with
  | [] => Ok b
  | x :: l => b' ← f b x; foldR f l b'
  end.

(** ** Cells *)

Inductive cell :=
| Num (q : Qc)
| NaN
| Str (s : string).

Inductive dtype := Float64 | Int64 | Object.

#[global] Instance exn_eq_dec : EqDecision exn.
Proof. solve_decision. Defined.
#[global] Instance cell_eq_dec : EqDecision cell.
Proof. solve_decision. Defined.
#[global] Instance dtype_eq_dec : EqDecision dtype.
Proof. solve_decision. Defined.
#[global] Instance result_eq_dec `{EqDecision A} : EqDecision (result A).
Proof. solve_decision. Defined.

Definition zq (z : Z) : Qc := Qc_of_Z z.
Definition num (z : Z) : cell := Num (zq z).

(** Lexicographic order on strings, by character code. *)
Definition str_lt (s t : string) : Prop := String_as_OT.compare s t = Lt.
Definition str_le (s t : string) : Prop := String_as_OT.compare s t ≠ Gt.

#[global] Instance str_lt_dec : RelDecision str_lt.
Proof. intros s t. unfold str_lt. apply _. Defined.
#[global] Instance str_le_dec : RelDecision str_le.
Proof. intros s t. unfold str_le. apply _. Defined.

(** Python's comparison operators on scalars.  An ordering comparison
    between a string and a float raises [TypeError]; any ordering
    comparison with [nan] is [False]; [==] never raises. *)
Inductive cmp := OpGt | OpLt | OpLe | OpEq.

Definition py_eq (a b : cell) : bool :=
  match a, b with
  | Num x, Num y => bool_decide (x = y)
  | Str s, Str t => bool_decide (s = t)
  | _, _ => false
  end.

Definition py_lt (a b : cell) : result bool :=
  match a, b with
  | Num x, Num y => Ok (bool_decide (x < y)%Qc)
  | Str s, Str t => Ok (bool_decide (str_lt s t))
  | Str _, _ | _, Str _ => Raise TypeError
  | _, _ => Ok false
  end.

Definition py_le (a b : cell) : result bool :=
  match a, b with
  | Num x, Num y => Ok (bool_decide (x ≤ y)%Qc)
  | Str s, Str t => Ok (bool_decide (str_le s t))
  | Str _, _ | _, Str _ => Raise TypeError
  | _, _ => Ok false
  end.

Definition py_cmp (op : cmp) (a b : cell) : result bool :=
  match op with
  | OpGt => py_lt b a
  | OpLt => py_lt a b
  | OpLe => py_le a b
  | OpEq => Ok (py_eq a b)
  end.

(** ** Data frames *)

Abbreviation row := (cell * list cell)%type.

Record DataFrame := mkDF {
  schema : list (string * dtype);
  rows : list row
}.

#[global] Instance DataFrame_eq_dec : EqDecision DataFrame.
Proof. solve_decision. Defined.

Definition columns (df : DataFrame) : list string := (schema df).*1.
Definition index (df : DataFrame) : list cell := (rows df).*1.
Definition values (df : DataFrame) : list (list cell) := (rows df).*2.

(** A frame is rectangular when every row has one cell per column. *)
Definition rectangular (df : DataFrame) : Prop :=
  Forall (λ r : row, length r.2 = length (schema df)) (rows df).

(** Position of the first column with the given name. *)
Fixpoint col_pos (name : string) (cols : list string) : option nat :=
  match cols with
  | [] => None
  | c :: cols => if decide (c = name) then Some 0%nat
                 else S <$> col_pos name cols
  end.

Definition get_loc (df : DataFrame) (name : string) : result nat :=
  match col_pos name (columns df) with
  | Some j => Ok j
  | None => Raise (KeyError name)
  end.

Definition cell_at (j : nat) (r : row) : cell := default NaN (r.2 !! j).

(** The cell of row [r] under the column [name] of [df] ([nan] when the
    frame has no such column). *)
Definition field (df : DataFrame) (name : string) (r : row) : cell :=
  match col_pos name (columns df) with
  | Some j => cell_at j r
  | None => NaN
  end.

(** The cells of the column at position [j], in row order. *)
Definition column_at (j : nat) (df : DataFrame) : list cell :=
  cell_at j <$> rows df.

(** [df[name]]: the column as a series of values, in row order. *)
Definition getitem (df : DataFrame) (name : string) : result (list cell) :=
  j ← get_loc df name; Ok (column_at j df).

(** [a op b] and [a op x] on series: element-wise, in row order. *)
Definition cmp_series (op : cmp) (a b : list cell) : result (list bool) :=
  mapR (λ p, py_cmp op p.1 p.2) (zip a b).

Definition cmp_scalar (op : cmp) (a : list cell) (x : cell)
  : result (list bool) :=
  mapR (λ c, py_cmp op c x) a.

(** [df[mask].index]: the labels of the rows selected by a boolean mask. *)
Definition masked_index (df : DataFrame) (mask : list bool) : list cell :=
  (filter (λ p : row * bool, p.2 = true) (zip (rows df) mask)).*1.*1.

(** [df.drop(labels)]: every row whose label occurs in [labels] goes. *)
Definition drop (df : DataFrame) (labels : list cell) : DataFrame :=
  mkDF (schema df) (filter (λ r : row, r.1 ∉ labels) (rows df)).

(** [df[name].loc[mask] = v]: the series [df[name]] shares its data with
    the frame (pandas without copy-on-write, whose warning line 9 turns
    off), so the write goes through to the frame. *)
Definition loc_set (df : DataFrame) (name : string) (mask : list bool)
    (v : cell) : result DataFrame :=
  j ← get_loc df name;
  Ok (mkDF (schema df)
        (zip_with (λ (r : row) (m : bool),
                     if m then (r.1, <[j := v]> r.2) else r)
           (rows df) mask)).

(** What [df[name].loc[df[name] == x] = v] makes of one row, [j] being
    the position of the column. *)
Definition set_where (j : nat) (x v : cell) (r : row) : row :=
  if py_eq (cell_at j r) x then (r.1, <[j := v]> r.2) else r.

(** ** Library functions the script calls *)

(** [float(c)]: the conversion numpy applies to a cell handed to a
    numeric routine.  A string is refused. *)
Definition as_float (c : cell) : result (option Qc) :=
  match c with
  | Num q => Ok (Some q)
  | NaN => Ok None
  | Str _ => Raise TypeError
  end.

(** [np.unique] on numbers: the distinct values in ascending order. *)
Definition np_unique_num (l : list Qc) : list Qc :=
  merge_sort Qcle (remove_dups l).

(** [np.unique] on strings: the distinct strings in lexicographic order. *)
Definition np_unique (l : list string) : list string :=
  merge_sort str_le (remove_dups l).

Definition count_occ_num (x : Qc) (l : list Qc) : nat :=
  length (filter (λ y, y = x) l).

(** [stats.mode(a)[0][0]] (scipy before 1.11, where the result keeps the
    reduced axis): the scores are visited in ascending order and a score
    replaces the running best only on a strictly larger count, so the
    smallest of the most frequent values wins.  The running best starts
    as 0 with count 0; [nan] equals no score and is never counted.  On an
    empty array the result arrays are empty and [[0][0]] raises
    [IndexError]. *)
Definition stats_mode (a : list cell) : result cell :=
  xs ← mapR as_float a;
  match xs with
  | [] => Raise IndexError
  | _ =>
      let obs := omap id xs in
      let step (best : Qc * nat) (score : Qc) :=
        let c := count_occ_num score obs in
        if decide (best.2 < c)%nat then (score, c) else best in
      Ok (Num (fold_left step (np_unique_num obs) (zq 0, 0%nat)).1)
  end.

(** [np.percentile(a, q)] with the default linear interpolation between
    order statistics.  The result is [nan] on an empty array and on an
    array that contains [nan]. *)
Definition np_percentile (a : list cell) (q : Qc) : result cell :=
  xs ← mapR as_float a;
  match xs with
  | [] => Ok NaN
  | _ =>
      if decide (Forall is_Some xs) then
        let s := merge_sort Qcle (omap id xs) in
        let n := length s in
        let pos := (q / zq 100 * zq (Z.of_nat n - 1))%Qc in
        let i := Qfloor pos in
        let g := (pos - zq i)%Qc in
        let lo := default (zq 0) (s !! Z.to_nat i) in
        let hi := default lo (s !! Z.to_nat (i + 1)) in
        Ok (Num (lo + g * (hi - lo))%Qc)
      else Ok NaN
  end.

(** ** Outlier Truncator (lines 23-42) *)

(** What [col in df.columns] compares: the labels of the column index are
    strings, the tested object may also be a tuple. *)
Inductive pylabel :=
| LStr (s : string)
| LTuple (t : string * Qc * Qc).

#[global] Instance pylabel_eq_dec : EqDecision pylabel.
Proof. solve_decision. Defined.

Definition contains (labels : list string) (key : pylabel) : bool :=
  bool_decide (key ∈ LStr <$> labels).

Definition cols : list (string * Qc * Qc) :=
  [ ("price_doc", Q2Qc (199 # 2), Q2Qc (1 # 2));
    ("full_sq", Q2Qc (199 # 2), Q2Qc (1 # 2));
    ("life_sq", zq 95, zq 5) ].

(** The body of the loop, lines 28-36, for one configured column. *)
Definition truncate_column (df : DataFrame) (col : string * Qc * Qc)
  : result DataFrame :=
  let name := col.1.1 in
  col_values ← getitem df name;
  let kept := filter (λ c, py_eq c (num (-99)) = false) col_values in
  upper_limit ← np_percentile kept col.1.2;
  lower_limit ← np_percentile kept col.2;
  df ← (s ← getitem df name; mask ← cmp_scalar OpGt s upper_limit;
        loc_set df name mask upper_limit);
  df ← (s ← getitem df name; mask ← cmp_scalar OpLt s lower_limit;
        loc_set df name mask lower_limit);
  Ok df.

Definition truncate_extreme_values (df : DataFrame) : result DataFrame :=
  foldR (λ df col,
           if contains (columns df) (LTuple col) then truncate_column df col
           else Ok df)
        cols df.

(** ** Rule-Based Filter (lines 78-118) *)

(** [df.drop(df[df[c1] op df[c2]].index)] *)
Definition drop_where2 (op : cmp) (c1 c2 : string) (df : DataFrame)
  : result DataFrame :=
  a ← getitem df c1;
  b ← getitem df c2;
  mask ← cmp_series op a b;
  Ok (drop df (masked_index df mask)).

(** [df.drop(df[df[c] op x].index)] *)
Definition drop_where (op : cmp) (c : string) (x : cell) (df : DataFrame)
  : result DataFrame :=
  a ← getitem df c;
  mask ← cmp_scalar op a x;
  Ok (drop df (masked_index df mask)).

(** Line 112: the right-hand side is evaluated first, then the target. *)
Definition repair_state (df : DataFrame) : result DataFrame :=
  mode ← (s ← getitem df "state"; stats_mode s);
  s ← getitem df "state";
  mask ← cmp_scalar OpEq s (num 33);
  loc_set df "state" mask mode.

(** Line 116. *)
Definition repair_build_year (df : DataFrame) : result DataFrame :=
  s ← getitem df "build_year";
  mask ← cmp_scalar OpEq s (num 20052009);
  loc_set df "build_year" mask (num 2007).

Definition handle_bad_data (df : DataFrame) : result DataFrame :=
  df ← drop_where2 OpGt "life_sq" "full_sq" df;
  df ← drop_where2 OpGt "kitch_sq" "full_sq" df;
  df ← drop_where OpEq "full_sq" (num 5326) df;
  df ← drop_where OpLe "build_year" (num 1691) df;
  df ← drop_where OpGt "build_year" (num 2018) df;
  df ← drop_where OpGt "max_floor" (num 57) df;
  df ← drop_where2 OpGt "floor" "max_floor" df;
  df ← drop_where OpEq "full_sq" (num 0) df;
  df ← drop_where OpEq "full_sq" (num 1) df;
  df ← drop_where OpEq "max_floor" (num 0) df;
  df ← drop_where OpLt "children_preschool" (num 0) df;
  df ← drop_where OpLt "preschool_quota" (num 0) df;
  df ← drop_where OpLt "children_school" (num 0) df;
  df ← drop_where OpLt "school_quota" (num 0) df;
  df ← repair_state df;
  df ← repair_build_year df;
  Ok df.

(** The removal steps as data, for the proofs: a rule names its columns
    and its operator, [rule_test] is what the rule's mask holds for one
    row, and [apply_rule] is the corresponding line of the function. *)
Inductive rule :=
| Rule2 (op : cmp) (c1 c2 : string)
| Rule1 (op : cmp) (c : string) (x : cell).

Definition removal_rules : list rule :=
  [ Rule2 OpGt "life_sq" "full_sq";
    Rule2 OpGt "kitch_sq" "full_sq";
    Rule1 OpEq "full_sq" (num 5326);
    Rule1 OpLe "build_year" (num 1691);
    Rule1 OpGt "build_year" (num 2018);
    Rule1 OpGt "max_floor" (num 57);
    Rule2 OpGt "floor" "max_floor";
    Rule1 OpEq "full_sq" (num 0);
    Rule1 OpEq "full_sq" (num 1);
    Rule1 OpEq "max_floor" (num 0);
    Rule1 OpLt "children_preschool" (num 0);
    Rule1 OpLt "preschool_quota" (num 0);
    Rule1 OpLt "children_school" (num 0);
    Rule1 OpLt "school_quota" (num 0) ].

Definition apply_rule (df : DataFrame) (ru : rule) : result DataFrame :=
  match ru with
  | Rule2 op c1 c2 => drop_where2 op c1 c2 df
  | Rule1 op c x => drop_where op c x df
  end.

Definition rule_columns (ru : rule) : list string :=
  match ru with
  | Rule2 _ c1 c2 => [c1; c2]
  | Rule1 _ c _ => [c]
  end.

Definition rule_test (df : DataFrame) (ru : rule) (r : row) : result bool :=
  match ru with
  | Rule2 op c1 c2 => py_cmp op (field df c1 r) (field df c2 r)
  | Rule1 op c x => py_cmp op (field df c r) x
  end.

(** The columns the filter reads, in the order it first reads them. *)
Definition filter_columns : list string :=
  [ "life_sq"; "full_sq"; "kitch_sq"; "build_year"; "max_floor"; "floor";
    "children_preschool"; "preschool_quota"; "children_school";
    "school_quota"; "state" ].

(** The row invariants of a filtered table [out], cell by cell: the
    bounds speak of the cells that are numbers. *)
Definition filtered_row (out : DataFrame) (r : row) : Prop :=
  let F name := field out name r in
  (∀ a b, F "life_sq" = Num a → F "full_sq" = Num b → (a ≤ b)%Qc) ∧
  (∀ a b, F "kitch_sq" = Num a → F "full_sq" = Num b → (a ≤ b)%Qc) ∧
  (∀ a b, F "floor" = Num a → F "max_floor" = Num b → (a ≤ b)%Qc) ∧
  (∀ y, F "build_year" = Num y → (zq 1691 < y)%Qc ∧ (y ≤ zq 2018)%Qc) ∧
  (F "full_sq" ≠ num 0 ∧ F "full_sq" ≠ num 1 ∧ F "full_sq" ≠ num 5326) ∧
  (F "max_floor" ≠ num 0 ∧ ∀ m, F "max_floor" = Num m → (m ≤ zq 57)%Qc) ∧
  (∀ x, F "children_preschool" = Num x → (zq 0 ≤ x)%Qc) ∧
  (∀ x, F "preschool_quota" = Num x → (zq 0 ≤ x)%Qc) ∧
  (∀ x, F "children_school" = Num x → (zq 0 ≤ x)%Qc) ∧
  (∀ x, F "school_quota" = Num x → (zq 0 ≤ x)%Qc) ∧
  F "build_year" ≠ num 20052009 ∧
  (stats_mode (field out "state" <$> rows out) ≠ Ok (num 33) →
   F "state" ≠ num 33).

(** ** Categorical Encoder (lines 45-54) *)

(** [LabelEncoder]: [fit] stores the sorted distinct labels, [transform]
    maps a label to its position among them and raises [ValueError] on a
    label that was not seen by [fit].  The script refits its one encoder
    before every use, so the encoder carries nothing from one column to
    the next and the classes are passed as a value. *)
Definition fit (y : list string) : list string := np_unique y.

Definition position (s : string) (classes : list string) : option nat :=
  col_pos s classes.

Definition transform (classes : list string) (y : list string)
  : result (list nat) :=
  mapR (λ s, match position s classes with
             | Some n => Ok n
             | None => Raise ValueError
             end) y.

(** The code of a label under the classes fitted on [S]. *)
Definition label_code (S : list string) (s : string) : nat :=
  default 0%nat (position s (fit S)).

Definition dtype_of (df : DataFrame) (name : string) : result dtype :=
  j ← get_loc df name;
  Ok (default Object ((schema df).*2 !! j)).

(** [df[name] = vals] for a column that exists: same position, new dtype.
    For a column that does not exist: appended as the last column.  The
    length of [vals] must be the number of rows. *)
Definition setitem (df : DataFrame) (name : string) (dt : dtype)
    (vals : list cell) : result DataFrame :=
  if decide (length vals = length (rows df)) then
    match col_pos name (columns df) with
    | Some j =>
        Ok (mkDF (<[j := (name, dt)]> (schema df))
              (zip_with (λ (r : row) v, (r.1, <[j := v]> r.2)) (rows df) vals))
    | None =>
        Ok (mkDF (schema df ++ [(name, dt)])
              (zip_with (λ (r : row) v, (r.1, r.2 ++ [v])) (rows df) vals))
    end
  else Raise ValueError.

Section Encoder.
(** [str(x)] of a number held in an object column: Python's float and
    integer formatting, which the script takes from the interpreter. *)
Variable py_str_num : Qc → string.

(** [values.astype("str")] on one cell. *)
Definition astype_str (c : cell) : string :=
  match c with
  | Str s => s
  | NaN => "nan"
  | Num q => py_str_num q
  end.

Definition code_cell (n : nat) : cell := num (Z.of_nat n).

(** Lines 50-53 for one column [f]. *)
Definition encode_column (df : DataFrame) (f : string) : result DataFrame :=
  s ← getitem df f;
  let classes := fit ((astype_str <$> s) ++ (astype_str <$> s)) in
  s' ← getitem df f;
  codes ← transform classes (astype_str <$> s');
  setitem df f Int64 (code_cell <$> codes).

(** The body of the loop of line 48 for one column name. *)
Definition encode_step (df : DataFrame) (f : string) : result DataFrame :=
  dt ← dtype_of df f;
  if bool_decide (dt = Object) && bool_decide (f ≠ "timestamp")
  then encode_column df f
  else Ok df.

Definition convert_categorical_to_numerical (df : DataFrame)
  : result DataFrame :=
  foldR encode_step (columns df) df.

(** The same encoder with the fit list taken once, for comparison with
    the duplicated fit list of the script. *)
Definition encode_column_fit_once (df : DataFrame) (f : string)
  : result DataFrame :=
  s ← getitem df f;
  let classes := fit (astype_str <$> s) in
  s' ← getitem df f;
  codes ← transform classes (astype_str <$> s');
  setitem df f Int64 (code_cell <$> codes).

Definition encode_step_fit_once (df : DataFrame) (f : string)
  : result DataFrame :=
  dt ← dtype_of df f;
  if bool_decide (dt = Object) && bool_decide (f ≠ "timestamp")
  then encode_column_fit_once df f
  else Ok df.

Definition convert_fit_once (df : DataFrame) : result DataFrame :=
  foldR encode_step_fit_once (columns df) df.

(** What the encoder makes of a column: every cell becomes the code of
    its string form among the string forms of the column. *)
Definition encode_cells (col : list cell) : list cell :=
  (λ c, code_cell (label_code (astype_str <$> col) (astype_str c))) <$> col.

(** The columns the encoder rewrites: the first column of its name,
    of dtype object, other than the timestamp. *)
Definition encoded_column (df : DataFrame) (j : nat) (f : string)
    (dt : dtype) : Prop :=
  col_pos f (columns df) = Some j ∧ dt = Object ∧ f ≠ "timestamp".

(** What the encoder has made of [df] when it returns [out]: names,
    labels and shape are kept; an encoded column holds, cell by cell,
    the code of the string form, and the codes are a bijection between
    the distinct string forms of the column and the numbers below their
    count, increasing along the lexicographic order; every other column
    is as it was. *)
Definition encoder_result (df out : DataFrame) : Prop :=
  columns out = columns df ∧ index out = index df ∧ rectangular out ∧
  ∀ j f dt, schema df !! j = Some (f, dt) →
    let S := astype_str <$> column_at j df in
    if decide (encoded_column df j f dt) then
      schema out !! j = Some (f, Int64) ∧
      column_at j out
        = (λ c, num (Z.of_nat (label_code S (astype_str c))))
            <$> column_at j df ∧
      (∀ s, s ∈ S → (label_code S s < length (remove_dups S))%nat) ∧
      (∀ s t, s ∈ S → t ∈ S → label_code S s = label_code S t → s = t) ∧
      (∀ n, (n < length (remove_dups S))%nat →
            ∃ s, s ∈ S ∧ label_code S s = n) ∧
      (∀ s t, s ∈ S → t ∈ S →
              (str_lt s t ↔ (label_code S s < label_code S t)%nat))
    else
      schema out !! j = Some (f, dt) ∧ column_at j out = column_at j df.
End Encoder.

(** ** Imputer (lines 57-75) *)

(** [df.drop(name, axis=1)]: every column carrying the label goes;
    [KeyError] when there is none. *)
Definition drop_cells (name : string) (names : list string) (cells : list cell)
  : list cell :=
  (filter (λ p : string * cell, p.1 ≠ name) (zip names cells)).*2.

Definition drop_column (df : DataFrame) (name : string) : result DataFrame :=
  _ ← get_loc df name;
  Ok (mkDF (filter (λ p : string * dtype, p.1 ≠ name) (schema df))
        ((λ r : row, (r.1, drop_cells name (columns df) r.2)) <$> rows df)).

(** [RangeIndex(n)]: the labels 0, 1, ..., n-1. *)
Definition RangeIndex (n : nat) : list cell :=
  (λ i, num (Z.of_nat i)) <$> seq 0 n.

(** [pd.DataFrame(X, columns=names)] on a two-dimensional array: float64
    columns, a fresh [RangeIndex]; [ValueError] when the width of the
    array is not the number of names. *)
Definition new_DataFrame (X : list (list cell)) (names : list string)
  : result DataFrame :=
  if decide (Forall (λ x : list cell, length x = length names) X) then
    Ok (mkDF ((λ c, (c, Float64)) <$> names) (zip (RangeIndex (length X)) X))
  else Raise ValueError.

(** [df.index = labels] *)
Definition set_index (df : DataFrame) (labels : list cell) : result DataFrame :=
  if decide (length labels = length (rows df)) then
    Ok (mkDF (schema df) (zip labels (values df)))
  else Raise ValueError.

(** *** [KNNImputer] *)

Definition matrix : Type := list (list (option Qc)).

Definition check_cell (c : cell) : result (option Qc) :=
  match c with
  | Num q => Ok (Some q)
  | NaN => Ok None
  | Str _ => Raise ValueError
  end.

(** Input validation: numeric cells, at least one row and one column. *)
Definition check_array (X : list (list cell)) : result matrix :=
  M ← mapR (mapR check_cell) X;
  match M with
  | [] => Raise ValueError
  | [] :: _ => Raise ValueError
  | _ => Ok M
  end.

Definition entry (x : list (option Qc)) (j : nat) : option Qc :=
  default None (x !! j).

Definition Qc_sum (l : list Qc) : Qc := foldr Qcplus (zq 0) l.

(** Squared [nan_euclidean] distance: the squared differences over the
    columns both rows observe, scaled by (columns / columns in common);
    undefined when no column is in common. *)
Definition sq_dist (x y : list (option Qc)) : option Qc :=
  let common :=
    omap (λ p : option Qc * option Qc,
            match p with
            | (Some a, Some b) => Some ((a - b) * (a - b))%Qc
            | _ => None
            end) (zip x y) in
  match common with
  | [] => None
  | _ => Some (Qc_sum common * zq (Z.of_nat (length x))
               / zq (Z.of_nat (length common)))%Qc
  end.

(** Undefined distances rank last. *)
Definition dist_le (d e : option Qc) : Prop :=
  match d, e with
  | Some a, Some b => (a ≤ b)%Qc
  | _, None => True
  | None, Some _ => False
  end.

#[global] Instance dist_le_dec : RelDecision dist_le.
Proof. intros [a|] [b|]; simpl; apply _. Defined.

Definition cand_le (p q : option Qc * Qc) : Prop := dist_le p.1 q.1.

#[global] Instance cand_le_dec : RelDecision cand_le.
Proof. intros p q. unfold cand_le. apply _. Defined.

(** The mean of an empty selection is [nan], as numpy has it. *)
Definition mean (l : list Qc) : cell :=
  match l with
  | [] => NaN
  | _ => Num (Qc_sum l / zq (Z.of_nat (length l)))%Qc
  end.

(** The value imputed into column [j] of the receiver row [x]. *)
Definition impute_cell (n_neighbors : nat) (M : matrix)
    (x : list (option Qc)) (j : nat) : cell :=
  let donors := omap (λ y, v ← entry y j; Some (sq_dist x y, v)) M in
  if bool_decide (Forall (λ p : option Qc * Qc, p.1 = None) donors) then
    mean donors.*2
  else
    mean (take (n_neighbors `min` length donors)
               (merge_sort cand_le donors)).*2.

Definition valid_column (M : matrix) (j : nat) : bool :=
  bool_decide (Exists (λ y, is_Some (entry y j)) M).

(** The cell the imputer leaves at column [j] of row [x]. *)
Definition filled (n_neighbors : nat) (M : matrix) (x : list (option Qc))
    (j : nat) : cell :=
  match entry x j with
  | Some v => Num v
  | None => impute_cell n_neighbors M x j
  end.

Definition transform_row (n_neighbors : nat) (M : matrix)
    (x : list (option Qc)) : list cell :=
  omap (λ j, if valid_column M j then Some (filled n_neighbors M x j)
             else None)
       (seq 0 (length x)).

(** Modelled from the spec: [KNNImputer(n_neighbors=n).fit_transform(X)]
    is scikit-learn code, not part of this repository.  The model follows
    section 4.4: a missing cell is filled with the mean, over the
    [n_neighbors] nearest rows that observe its column, of that column's
    values; the distance between two rows is taken over the columns both
    observe.  Where section 4.4 leaves the behaviour open the model takes
    scikit-learn's: a receiver at an undefined distance from every donor
    gets the column mean, a donor at an undefined distance ranks after
    every donor at a defined one, and a column without any observed value
    is left out of the result.  Distances are compared by their squares,
    and donors at equal distance are taken in the order the sort leaves
    them. *)
Definition fit_transform (n_neighbors : nat) (X : list (list cell))
  : result (list (list cell)) :=
  M ← check_array X;
  Ok (transform_row n_neighbors M <$> M).

Definition impute_missing_values_data (df : DataFrame) : result DataFrame :=
  let df_cp := df in
  df ← drop_column df "timestamp";
  X ← fit_transform 5 (values df);
  df ← new_DataFrame X (columns df);
  ts ← getitem df_cp "timestamp";
  dt ← dtype_of df_cp "timestamp";
  setitem df "timestamp" dt ts.

Definition impute_missing_values_macro (df : DataFrame) : result DataFrame :=
  let df_cp := df in
  X ← fit_transform 5 (values df);
  df ← new_DataFrame X (columns df);
  set_index df (index df_cp).

(** What the data-table imputer has made of [df] when it returns [out]:
    the rows in number and order, the timestamps row by row, a number in
    every cell outside the timestamp column, and every number of [df] in
    its row and column. *)
Definition imputed_data (df out : DataFrame) : Prop :=
  length (rows out) = length (rows df) ∧
  field out "timestamp" <$> rows out = field df "timestamp" <$> rows df ∧
  (∀ r' f, r' ∈ rows out → f ∈ columns out → f ≠ "timestamp" →
           ∃ q, field out f r' = Num q) ∧
  (∀ i r r' f q, rows df !! i = Some r → rows out !! i = Some r' →
                 f ≠ "timestamp" → field df f r = Num q →
                 field out f r' = Num q).

(** The same for the macro imputer, which keeps the row labels and the
    columns and fills every column. *)
Definition imputed_macro (df out : DataFrame) : Prop :=
  length (rows out) = length (rows df) ∧
  index out = index df ∧
  columns out = columns df ∧
  (∀ r' f, r' ∈ rows out → f ∈ columns out → ∃ q, field out f r' = Num q) ∧
  (∀ i r r' f q, rows df !! i = Some r → rows out !! i = Some r' →
                 field df f r = Num q → field out f r' = Num q).

(** ** Geo Corrector (lines 16-20) *)

Fixpoint lookup_label (l : cell) (labelled : list (cell * cell)) : cell :=
  match labelled with
  | [] => NaN
  | (k, v) :: labelled => if decide (k = l) then v else lookup_label l labelled
  end.

(** A frame without rows takes over the labels of the first non-empty
    series assigned to it, with missing values in the columns it has. *)
Definition adopt_index (df : DataFrame) (labels : list cell) : DataFrame :=
  mkDF (schema df)
    ((λ l, (l, replicate (length (schema df)) NaN)) <$> labels).

(** [df[name] = ref[name]]: the series is aligned on the row labels of
    [df]; a label that [ref] does not have yields [nan], and a duplicated
    label in [ref] cannot be re-indexed.  When the two indexes are equal
    the values are taken as they come. *)
Definition setitem_series (df ref : DataFrame) (name : string)
  : result DataFrame :=
  s ← getitem ref name;
  dt ← dtype_of ref name;
  if decide (rows df = [] ∧ s ≠ []) then
    setitem (adopt_index df (index ref)) name dt s
  else if decide (index ref = index df) then setitem df name dt s
  else if decide (NoDup (index ref)) then
    setitem df name dt ((λ l, lookup_label l (zip (index ref) s)) <$> index df)
  else Raise ValueError.

(** The reference values of a column, keyed by row label. *)
Definition keyed (ref : DataFrame) (j : nat) : list (cell * cell) :=
  (λ m : row, (m.1, cell_at j m)) <$> rows ref.

Definition correct_lon_lat (df ref_df : DataFrame) : result DataFrame :=
  df ← setitem_series df ref_df "lon";
  df ← setitem_series df ref_df "lat";
  Ok df.

(** ** Joiner (lines 170-175) *)

(** Overlapping column names receive the suffixes [_x] and [_y]. *)
Definition suffixed (sfx : string) (others : list string)
    (sch : list (string * dtype)) : list (string * dtype) :=
  (λ p : string * dtype,
     if decide (p.1 ∈ others) then (p.1 +:+ sfx, p.2) else p) <$> sch.

(** [left.merge(right, how="left", left_on=key, right_index=True)]: the
    rows of [left] in their order and under their labels; each followed
    by the cells of every row of [right] whose label equals its key (one
    output row per match), or by missing values when there is none. *)
Definition merge_left (left right : DataFrame) (left_on : string)
  : result DataFrame :=
  j ← get_loc left left_on;
  Ok (mkDF (suffixed "_x" (columns right) (schema left)
            ++ suffixed "_y" (columns left) (schema right))
        (r ← rows left;
         match filter (λ m : row, m.1 = cell_at j r) (rows right) with
         | [] => [(r.1, r.2 ++ replicate (length (schema right)) NaN)]
         | ms => (λ m : row, (r.1, r.2 ++ m.2)) <$> ms
         end)).

(** The row the join makes of a transaction row [r], when the macro keys
    are distinct. *)
Definition joined_row (right : DataFrame) (k : cell) (r : row) : row :=
  match filter (λ m : row, m.1 = k) (rows right) with
  | m :: _ => (r.1, r.2 ++ m.2)
  | [] => (r.1, r.2 ++ replicate (length (schema right)) NaN)
  end.

(** ** Writer (lines 140-149, 165-167) *)

Definition TRAIN_OUT_PATH : string := "output/train.csv".
Definition TEST_OUT_PATH : string := "output/test.csv".
Definition MACRO_OUT_PATH : string := "output/test.csv".
Definition JOIN_TRAIN_MACRO_PATH : string := "output/train_macro.csv".
Definition JOIN_TEST_MACRO_PATH : string := "output/test_macro.csv".

(** A written file: the header and the records; with [index=False] the
    row labels are not written. *)
Definition csv : Type := list string * list (list cell).

Definition to_csv (df : DataFrame) (path : string) (fs : gmap string csv)
  : gmap string csv :=
  <[path := (columns df, values df)]> fs.

(** Lines 165-167. *)
Definition write_cleaned
    (df_train_clean df_test_clean df_macro_clean : DataFrame)
    (fs : gmap string csv) : gmap string csv :=
  let fs := to_csv df_train_clean TRAIN_OUT_PATH fs in
  let fs := to_csv df_test_clean TEST_OUT_PATH fs in
  let fs := to_csv df_macro_clean MACRO_OUT_PATH fs in
  fs.

(** ** The two pipelines and the script *)

Section Pipeline.
Variable py_str_num : Qc → string.

(** The module's global names that are bound to functions of one frame
    when the script reaches line 162.  A call looks its name up here at
    the time of the call; a name that is not bound raises [NameError]. *)
Definition module_globals : gmap string (DataFrame → result DataFrame) :=
  list_to_map
    [ ("truncate_extreme_values", truncate_extreme_values);
      ("convert_categorical_to_numerical",
        convert_categorical_to_numerical py_str_num);
      ("impute_missing_values_data", impute_missing_values_data);
      ("impute_missing_values_macro", impute_missing_values_macro);
      ("handle_bad_data", handle_bad_data) ].

Definition call (name : string) (df : DataFrame) : result DataFrame :=
  match module_globals !! name with
  | Some f => f df
  | None => Raise (NameError name)
  end.

Definition clean_data (df ref_df : DataFrame) : result DataFrame :=
  df ← correct_lon_lat df ref_df;
  df ← call "truncate_extreme_values" df;
  df ← call "convert_categorical_to_numerical" df;
  df ← call "impute_missing_values_data" df;
  df ← call "handle_bad_data" df;
  Ok df.

Definition clean_macro (df : DataFrame) : result DataFrame :=
  df ← call "truncate_extreme_value" df;
  df ← call "convert_categorical_to_numerical" df;
  df ← call "impute_missing_values_macro" df;
  Ok df.

(** Lines 162-175 on the loaded frames: the file store the script
    leaves behind, and the exception that ended it, if any. *)
Definition main (df_train df_test df_train_lat_lon df_test_lat_lon
                 df_macro : DataFrame) (fs : gmap string csv)
  : gmap string csv * option exn :=
  match clean_data df_train df_train_lat_lon with
  | Raise e => (fs, Some e)
  | Ok df_train_clean =>
  match clean_data df_test df_test_lat_lon with
  | Raise e => (fs, Some e)
  | Ok df_test_clean =>
  match clean_macro df_macro with
  | Raise e => (fs, Some e)
  | Ok df_macro_clean =>
  let fs := write_cleaned df_train_clean df_test_clean df_macro_clean fs in
  match merge_left df_train_clean df_macro_clean "timestamp" with
  | Raise e => (fs, Some e)
  | Ok joined_train =>
  let fs := to_csv joined_train JOIN_TRAIN_MACRO_PATH fs in
  match merge_left df_test_clean df_macro_clean "timestamp" with
  | Raise e => (fs, Some e)
  | Ok joined_test =>
  (to_csv joined_test JOIN_TEST_MACRO_PATH fs, None)
  end end end end end.
End Pipeline.

(** ** Example frames *)

(** One configured column with an outlier and a sentinel row. *)
Definition ex_full_sq : DataFrame :=
  mkDF [("full_sq", Float64)]
    [ (num 0, [num 1]); (num 1, [num 2]); (num 2, [num 3]);
      (num 3, [num 4]); (num 4, [num 1000]); (num 5, [num (-99)]) ].

(** A macro table keyed by date, with a missing indicator. *)
Definition ex_macro : DataFrame :=
  mkDF [("gdp", Float64); ("cpi", Float64)]
    [ (Str "2011-08-20", [num 7; num 100]);
      (Str "2011-08-21", [NaN; num 102]);
      (Str "2011-08-22", [num 9; num 104]) ].

Definition ex_macro_imputed : DataFrame :=
  Eval vm_compute in
    match impute_missing_values_macro ex_macro with
    | Ok out => out
    | Raise _ => ex_macro
    end.

(** Transactions keyed by id, the timestamp first, a missing area. *)
Definition ex_transactions : DataFrame :=
  mkDF [("timestamp", Object); ("full_sq", Float64); ("life_sq", Float64)]
    [ (num 10, [Str "2011-08-20"; num 50; num 30]);
      (num 20, [Str "2011-08-21"; num 60; NaN]);
      (num 30, [Str "2011-09-01"; num 70; num 40]) ].

Definition ex_transactions_imputed : DataFrame :=
  Eval vm_compute in
    match impute_missing_values_data ex_transactions with
    | Ok out => out
    | Raise _ => ex_transactions
    end.

(** A frame with two textual columns, one of them the timestamp. *)
Definition ex_categorical : DataFrame :=
  mkDF [("sub_area", Object); ("timestamp", Object); ("full_sq", Int64)]
    [ (num 1, [Str "Mitino"; Str "2011-08-20"; num 50]);
      (num 2, [Str "Arbat"; Str "2011-08-21"; num 60]);
      (num 3, [NaN; Str "2011-08-22"; num 70]);
      (num 4, [Str "Mitino"; Str "2011-08-23"; num 80]) ].

(** [str] of a number, for the examples: none of their object columns
    holds a number. *)
Definition ex_py_str_num (q : Qc) : string := "0".

(** The columns the Rule-Based Filter reads. *)
Definition filter_schema : list (string * dtype) :=
  [ ("full_sq", Float64); ("life_sq", Float64); ("kitch_sq", Float64);
    ("floor", Float64); ("max_floor", Float64); ("build_year", Float64);
    ("state", Float64); ("children_preschool", Float64);
    ("preschool_quota", Float64); ("children_school", Float64);
    ("school_quota", Float64) ].

(** Row 0 has life_sq above full_sq, row 1 the state 33, row 2 the build
    year 20052009; rows 3 and 4 are in order. *)
Definition ex_survey : DataFrame :=
  mkDF filter_schema
    [ (num 0, num <$> [50; 80; 5; 2; 9; 2000; 2; 1; 1; 1; 1]);
      (num 1, num <$> [50; 30; 5; 2; 9; 2000; 33; 1; 1; 1; 1]);
      (num 2, num <$> [50; 30; 5; 2; 9; 20052009; 2; 1; 1; 1; 1]);
      (num 3, num <$> [60; 30; 5; 2; 9; 1990; 2; 1; 1; 1; 1]);
      (num 4, num <$> [70; 30; 5; 2; 9; 2010; 3; 1; 1; 1; 1]) ].

Definition ex_survey_filtered : DataFrame :=
  Eval vm_compute in
    match handle_bad_data ex_survey with
    | Ok out => out
    | Raise _ => ex_survey
    end.

(** Rows the filter keeps: the state 33 twice (it is the mode), a
    negative max_floor, a missing life_sq. *)
Definition ex_kept : DataFrame :=
  mkDF filter_schema
    [ (num 0, num <$> [50; 30; 5; 2; 9; 2000; 33; 1; 1; 1; 1]);
      (num 1, num <$> [50; 30; 5; -2; -1; 2000; 33; 1; 1; 1; 1]);
      (num 2, [num 50; NaN; num 5; num 2; num 9; num 2000; num 2;
               num 1; num 1; num 1; num 1]) ].

(** The filter columns without any row. *)
Definition ex_survey_empty : DataFrame := mkDF filter_schema [].

Definition ex_categorical_encoded : DataFrame :=
  Eval vm_compute in
    match convert_categorical_to_numerical ex_py_str_num ex_categorical with
    | Ok out => out
    | Raise _ => ex_categorical
    end.

(** Listings keyed by id: the timestamp and the columns the filter reads.
    Listing 101 has life_sq above full_sq. *)
Definition ex_listing : DataFrame :=
  mkDF (("timestamp", Object) :: filter_schema)
    [ (num 101, Str "2011-08-20"
                  :: (num <$> [50; 80; 5; 2; 9; 2000; 2; 1; 1; 1; 1]));
      (num 102, Str "2011-08-21"
                  :: (num <$> [60; 30; 5; 2; 9; 1990; 2; 1; 1; 1; 1]));
      (num 103, Str "2011-08-22"
                  :: (num <$> [70; 30; 5; 2; 9; 2010; 3; 1; 1; 1; 1])) ].

(** Coordinates keyed by id, as read from the file and after
    [sort_index]; listing 102 has none. *)
Definition ex_geo : DataFrame :=
  mkDF [("lat", Float64); ("lon", Float64)]
    [ (num 103, [num 56; num 38]); (num 101, [num 55; num 37]) ].

Definition ex_geo_sorted : DataFrame :=
  mkDF [("lat", Float64); ("lon", Float64)]
    [ (num 101, [num 55; num 37]); (num 103, [num 56; num 38]) ].

Definition ex_listing_geo : DataFrame :=
  Eval vm_compute in
    match correct_lon_lat ex_listing ex_geo_sorted with
    | Ok out => out
    | Raise _ => ex_listing
    end.

Definition ex_listing_clean : DataFrame :=
  Eval vm_compute in
    match clean_data ex_py_str_num ex_listing ex_geo_sorted with
    | Ok out => out
    | Raise _ => ex_listing
    end.

(** A macro table in which one date occurs twice. *)
Definition ex_macro_repeated : DataFrame :=
  mkDF [("gdp", Float64)]
    [ (Str "2011-08-20", [num 7]); (Str "2011-08-20", [num 8]) ].

(** A macro table whose first indicator was never observed. *)
Definition ex_macro_blank : DataFrame :=
  mkDF [("gdp", Float64); ("cpi", Float64)]
    [ (Str "2011-08-20", [NaN; num 100]);
      (Str "2011-08-21", [NaN; num 102]) ].
(** * Properties *)

(** ** The error monad *)

Lemma bind_Ok {A B} (m : result A) (f : A → result B) (b : B) :
  m ≫= f = Ok b ↔ ∃ a, m = Ok a ∧ f a = Ok b.
Proof.
  destruct m as [a|e]; simpl; split.
  - eauto.
  - by intros (? & [= ->] & ?).
  - done.
  - by intros (? & ? & ?).
Qed.

(** Breaks a successful run of monadic code into its successful steps. *)
Ltac inv_Ok :=
  repeat match goal with
    | H : Ok _ = Ok _ |- _ => injection H as H; try subst
    | H : Raise _ = Ok _ |- _ => discriminate H
    | H : _ ≫= _ = Ok _ |- _ => apply bind_Ok in H as (? & ? & H)
    | H : mbind _ _ = Ok _ |- _ => apply bind_Ok in H as (? & ? & H)
    end.

Lemma mapR_Ok {A B} (f : A → result B) (l : list A) (ys : list B) :
  mapR f l = Ok ys ↔ Forall2 (λ x y, f x = Ok y) l ys.
Proof.
  revert ys. induction l as [|x l IH]; intros ys; simpl.
  - split; [intros [= <-]; constructor | by inversion 1].
  - split.
    + intros H. inv_Ok. constructor; [done | by apply IH].
    + inversion 1 as [|? y ? ys' Hx Hl]; subst.
      rewrite Hx. simpl. apply IH in Hl. by rewrite Hl.
Qed.

Lemma mapR_fmap {A B C} (f : B → result C) (g : A → B) (l : list A) :
  mapR f (g <$> l) = mapR (f ∘ g) l.
Proof. induction l as [|x l IH]; csimpl; [done | by rewrite IH]. Qed.

Lemma mapR_ext {A B} (f g : A → result B) (l : list A) :
  (∀ x, x ∈ l → f x = g x) → mapR f l = mapR g l.
Proof.
  induction l as [|x l IH]; intros H; simpl; [done |].
  rewrite (H x) by left. rewrite IH; [done |].
  intros y Hy. apply H. by right.
Qed.

Lemma mapR_pure {A B} (f : A → B) (l : list A) :
  mapR (λ x, Ok (f x)) l = Ok (f <$> l).
Proof. induction l as [|x l IH]; csimpl; [done | by rewrite IH]. Qed.

Lemma mapR_length {A B} (f : A → result B) (l : list A) (ys : list B) :
  mapR f l = Ok ys → length ys = length l.
Proof. rewrite mapR_Ok. intros H. symmetry. by eapply Forall2_length. Qed.

(** Settles a closed decidable proposition by evaluation. *)
Ltac by_decide := apply (bool_decide_unpack _); vm_compute; exact I.

(** ** Column positions *)

Lemma col_pos_Some name cols j :
  col_pos name cols = Some j →
  cols !! j = Some name ∧ ∀ i, (i < j)%nat → cols !! i ≠ Some name.
Proof.
  revert j. induction cols as [|c cols IH]; intros j; simpl; [done |].
  case_decide as Hc.
  - intros [= <-]. split; [by subst | intros; lia].
  - destruct (col_pos name cols) as [j'|] eqn:Hj; simpl; [|done].
    intros [= <-]. destruct (IH j' eq_refl) as [H1 H2]. split; [done |].
    intros [|i] Hi; simpl; [congruence | apply H2; lia].
Qed.

Lemma col_pos_None name cols : col_pos name cols = None ↔ name ∉ cols.
Proof.
  induction cols as [|c cols IH]; simpl.
  - split; [intros _; apply not_elem_of_nil | done].
  - case_decide as Hc.
    + split; [done | intros []; subst; left].
    + rewrite not_elem_of_cons, <-IH.
      destruct (col_pos name cols); simpl.
      * split; [done | by intros [_ ?]].
      * split; [intros _; split; [congruence | done] | done].
Qed.

Lemma col_pos_None_not name cols : col_pos name cols ≠ None → name ∈ cols.
Proof.
  intros H. destruct (decide (name ∈ cols)) as [|Hn]; [done |].
  by apply col_pos_None in Hn.
Qed.

Lemma col_pos_inj n1 n2 cols j :
  col_pos n1 cols = Some j → col_pos n2 cols = Some j → n1 = n2.
Proof.
  intros [H1 _]%col_pos_Some [H2 _]%col_pos_Some. congruence.
Qed.

Lemma col_pos_lt name cols j : col_pos name cols = Some j → (j < length cols)%nat.
Proof. intros [H _]%col_pos_Some. by eapply lookup_lt_Some. Qed.

Lemma get_loc_Ok df name j :
  get_loc df name = Ok j ↔ col_pos name (columns df) = Some j.
Proof.
  unfold get_loc. destruct (col_pos _ _); split; intros; simplify_eq; done.
Qed.

Lemma field_at df name j r :
  col_pos name (columns df) = Some j → field df name r = cell_at j r.
Proof. unfold field. by intros ->. Qed.

Lemma DataFrame_eta df : mkDF (schema df) (rows df) = df.
Proof. by destruct df. Qed.

(** ** Outlier Truncator *)

(** No tuple is a label of a column index made of strings. *)
Lemma contains_tuple labels t : contains labels (LTuple t) = false.
Proof.
  unfold contains. apply bool_decide_eq_false.
  rewrite list_elem_of_fmap. by intros (? & ? & ?).
Qed.

(** The guard of line 27 tests the whole configuration tuple, so it never
    holds and the function returns its argument as it came. *)
Lemma truncate_extreme_values_id df : truncate_extreme_values df = Ok df.
Proof.
  unfold truncate_extreme_values.
  generalize cols. intros l. revert df.
  induction l as [|col l IH]; intros df; simpl; [done |].
  rewrite contains_tuple. simpl. apply IH.
Qed.

(** C1 (the code departs from the claim).  On a frame whose [full_sq]
    column holds 1, 2, 3, 4, 1000 and the sentinel -99, the Outlier
    Truncator returns the frame unchanged: the value 1000 stays above the
    99.5 percentile of the sentinel-free values and the sentinel stays
    below their 0.5 percentile, while the loop body run on the column
    would have clipped both. *)
Theorem truncate_extreme_values_keeps_outliers :
  truncate_extreme_values ex_full_sq = Ok ex_full_sq ∧
  ∃ upper lower,
    np_percentile [num 1; num 2; num 3; num 4; num 1000] (Q2Qc (199 # 2))
      = Ok (Num upper) ∧
    np_percentile [num 1; num 2; num 3; num 4; num 1000] (Q2Qc (1 # 2))
      = Ok (Num lower) ∧
    (upper < zq 1000)%Qc ∧ (zq (-99) < lower)%Qc ∧
    ∃ out,
      truncate_column ex_full_sq ("full_sq", Q2Qc (199 # 2), Q2Qc (1 # 2))
        = Ok out ∧
      field out "full_sq" <$> rows out
        = [Num lower; num 2; num 3; num 4; Num upper; Num lower].
Proof.
  split; [apply truncate_extreme_values_id |].
  eexists _, _.
  split; [vm_compute; reflexivity |]. split; [vm_compute; reflexivity |].
  split; [by vm_compute |]. split; [by vm_compute |].
  eexists. split; [vm_compute; reflexivity |]. vm_compute. reflexivity.
Qed.

(** ** The macro pipeline *)

(** Line 133 calls a name that the module never binds. *)
Lemma call_unbound py df :
  call py "truncate_extreme_value" df = Raise (NameError "truncate_extreme_value").
Proof. reflexivity. Qed.

(** The transaction pipeline spells the name as it is defined. *)
Lemma call_truncate py df :
  call py "truncate_extreme_values" df = truncate_extreme_values df.
Proof. reflexivity. Qed.

(** C2 (the code departs from the claim).  On every macro table
    [clean_macro] raises [NameError] at its first step, before the
    encoder or the imputer run: no table is returned. *)
Theorem clean_macro_raises py df :
  clean_macro py df = Raise (NameError "truncate_extreme_value").
Proof. unfold clean_macro. by rewrite call_unbound. Qed.

(** ** Writer *)

Lemma write_cleaned_train a b c fs :
  write_cleaned a b c fs !! TRAIN_OUT_PATH = Some (columns a, values a).
Proof.
  unfold write_cleaned, to_csv.
  rewrite !lookup_insert_ne by done. apply lookup_insert_eq.
Qed.

(** C3 (the code departs from the claim).  The test path and the macro
    path are one path: after the three writes of lines 165-167 the file
    at the test output location holds the cleaned macro table, whatever
    the cleaned test table was; on the example it is not the test
    table. *)
Theorem write_cleaned_overwrites_test :
  MACRO_OUT_PATH = TEST_OUT_PATH ∧
  (∀ df_train_clean df_test_clean df_macro_clean fs,
     write_cleaned df_train_clean df_test_clean df_macro_clean fs
       !! TEST_OUT_PATH
     = Some (columns df_macro_clean, values df_macro_clean)) ∧
  write_cleaned ex_full_sq ex_full_sq ex_macro ∅ !! TEST_OUT_PATH
    ≠ Some (columns ex_full_sq, values ex_full_sq).
Proof.
  split; [done |]. split.
  - intros a b c fs. unfold write_cleaned, to_csv. apply lookup_insert_eq.
  - unfold write_cleaned, to_csv. rewrite lookup_insert_eq. by intros [=].
Qed.

(** The script itself never reaches the writer: once both transaction
    tables are cleaned, [clean_macro] ends the run and the file store is
    as it was. *)
Lemma main_stops_at_clean_macro py tr te tr_ll te_ll ma fs tr' te' :
  clean_data py tr tr_ll = Ok tr' →
  clean_data py te te_ll = Ok te' →
  main py tr te tr_ll te_ll ma fs
  = (fs, Some (NameError "truncate_extreme_value")).
Proof.
  intros H1 H2. unfold main, clean_macro. by rewrite H1, H2, call_unbound.
Qed.

(** ** The order on strings and [np.unique] *)

Lemma str_compare_Gt s t :
  String_as_OT.compare s t = Gt ↔ String_as_OT.compare t s = Lt.
Proof.
  pose proof (irreflexivity String_as_OT.lt) as Hirr.
  destruct (String_as_OT.compare_spec s t) as [Heq|Hlt|Hgt].
  - change (s = t) in Heq. subst. split; [done |]. intros H.
    destruct (Hirr t H).
  - split; [done |]. intros H. destruct (Hirr s). by etrans.
  - done.
Qed.

Lemma str_le_lt_eq s t : str_le s t ↔ str_lt s t ∨ s = t.
Proof.
  unfold str_le, str_lt.
  destruct (String_as_OT.compare_spec s t) as [->|Hlt|Hgt]; split;
    try done; auto.
  - intros [? | ->]; [done |].
    by destruct (irreflexivity String_as_OT.lt t).
Qed.

#[global] Instance str_lt_strict : StrictOrder str_lt.
Proof. exact String_as_OT.lt_strorder. Qed.

#[global] Instance str_le_total : Total str_le.
Proof.
  intros s t. unfold str_le.
  destruct (String_as_OT.compare s t) eqn:Hc; [by left | by left |].
  right. apply str_compare_Gt in Hc. by rewrite Hc.
Qed.

#[global] Instance str_le_trans : Transitive str_le.
Proof.
  intros s t u. rewrite !str_le_lt_eq.
  intros [H1 | ->] [H2 | ->]; auto. left. by etrans.
Qed.

#[global] Instance str_le_antisym : AntiSymm (=) str_le.
Proof.
  intros s t. rewrite !str_le_lt_eq. intros [H1 | ->] [H2 | H2]; auto.
  destruct (irreflexivity str_lt s). by etrans.
Qed.

Lemma np_unique_Permutation S : np_unique S ≡ₚ remove_dups S.
Proof. apply merge_sort_Permutation. Qed.

Lemma np_unique_sorted S : StronglySorted str_le (np_unique S).
Proof. apply (StronglySorted_merge_sort _). Qed.

Lemma np_unique_NoDup S : NoDup (np_unique S).
Proof. rewrite np_unique_Permutation. apply NoDup_remove_dups. Qed.

Lemma elem_of_np_unique s S : s ∈ np_unique S ↔ s ∈ S.
Proof. rewrite np_unique_Permutation. apply elem_of_remove_dups. Qed.

Lemma np_unique_length S : length (np_unique S) = length (remove_dups S).
Proof. by rewrite np_unique_Permutation. Qed.

(** The distinct sorted labels of a list taken twice are those of the
    list. *)
Lemma np_unique_app_diag S : np_unique (S ++ S) = np_unique S.
Proof.
  apply (StronglySorted_unique str_le); try apply np_unique_sorted.
  apply NoDup_Permutation; try apply np_unique_NoDup.
  intros s. rewrite !elem_of_np_unique, elem_of_app. tauto.
Qed.

Lemma StronglySorted_lookup {A} (R : relation A) l i j x y :
  StronglySorted R l → l !! i = Some x → l !! j = Some y → (i < j)%nat → R x y.
Proof.
  intros Hl. revert i j. induction Hl as [|z l Hl IH Hz]; intros i j; [done |].
  destruct j as [|j]; [lia |]. destruct i as [|i]; simpl.
  - intros [= ->] Hy _. rewrite Forall_forall in Hz. apply Hz.
    by eapply list_elem_of_lookup_2.
  - intros Hx Hy ?. apply (IH i j); [done | done | lia].
Qed.

(** ** [LabelEncoder] *)

Lemma position_Some s classes n :
  position s classes = Some n → classes !! n = Some s.
Proof. intros H. by apply col_pos_Some in H as [? _]. Qed.

Lemma position_elem_of s classes :
  s ∈ classes → ∃ n, position s classes = Some n.
Proof.
  intros Hs. destruct (position s classes) as [n|] eqn:Hp; [eauto |].
  by apply col_pos_None in Hp.
Qed.

Lemma label_code_lookup S s : s ∈ S → fit S !! label_code S s = Some s.
Proof.
  intros Hs. unfold label_code.
  destruct (position_elem_of s (fit S)) as [n Hn].
  { by apply elem_of_np_unique. }
  rewrite Hn. simpl. by apply position_Some.
Qed.

Lemma label_code_lt S s : s ∈ S → (label_code S s < length (remove_dups S))%nat.
Proof.
  intros Hs. rewrite <-np_unique_length.
  eapply lookup_lt_Some. by apply label_code_lookup.
Qed.

Lemma label_code_inj S s t :
  s ∈ S → t ∈ S → label_code S s = label_code S t → s = t.
Proof.
  intros Hs Ht Heq. apply label_code_lookup in Hs, Ht.
  rewrite Heq in Hs. congruence.
Qed.

Lemma label_code_surj S n :
  (n < length (remove_dups S))%nat → ∃ s, s ∈ S ∧ label_code S s = n.
Proof.
  rewrite <-np_unique_length. intros Hn.
  destruct (lookup_lt_is_Some_2 _ _ Hn) as [s Hs].
  assert (s ∈ S) as HsS.
  { apply elem_of_np_unique. by eapply list_elem_of_lookup_2. }
  exists s. split; [done |].
  apply (NoDup_lookup (np_unique S) _ _ s); [apply np_unique_NoDup | | done].
  by apply label_code_lookup.
Qed.

Lemma label_code_mono S s t :
  s ∈ S → t ∈ S → (str_lt s t ↔ (label_code S s < label_code S t)%nat).
Proof.
  intros Hs Ht. pose proof (label_code_lookup S s Hs) as Hls.
  pose proof (label_code_lookup S t Ht) as Hlt.
  assert (∀ a b i j, fit S !! i = Some a → fit S !! j = Some b →
                     (i < j)%nat → str_lt a b) as Hmono.
  { intros a b i j Ha Hb Hij.
    pose proof (StronglySorted_lookup str_le _ i j a b
                  (np_unique_sorted S) Ha Hb Hij) as Hle.
    apply str_le_lt_eq in Hle as [? | ->]; [done |].
    pose proof (NoDup_lookup _ _ _ _ (np_unique_NoDup S) Ha Hb). lia. }
  split.
  - intros Hst.
    destruct (lt_eq_lt_dec (label_code S s) (label_code S t)) as [[?|Heq]|Hgt];
      [done | |].
    + rewrite Heq in Hls. assert (s = t) as -> by congruence.
      by destruct (irreflexivity str_lt t).
    + pose proof (Hmono _ _ _ _ Hlt Hls Hgt).
      destruct (irreflexivity str_lt s). by etrans.
  - by apply Hmono.
Qed.

Lemma transform_fit S y :
  y ⊆ S → transform (fit S) y = Ok (label_code S <$> y).
Proof.
  intros Hy. unfold transform.
  rewrite <-(mapR_pure (label_code S)). apply mapR_ext.
  intros s Hs. unfold label_code.
  destruct (position_elem_of s (fit S)) as [n ->]; [|done].
  apply elem_of_np_unique. by apply Hy.
Qed.

(** ** Frames: columns and cell updates *)

Lemma column_at_insert j j' (rs : list row) (vals : list cell) :
  length vals = length rs →
  Forall (λ r : row, (j < length r.2)%nat) rs →
  cell_at j' <$> zip_with (λ (r : row) v, (r.1, <[j := v]> r.2)) rs vals
  = if decide (j' = j) then vals else cell_at j' <$> rs.
Proof.
  revert vals. induction rs as [|r rs IH]; intros [|v vals] Hlen Hj;
    simplify_eq/=; try by case_decide.
  apply Forall_cons in Hj as [Hr Hj].
  rewrite IH by done. unfold cell_at at 1. simpl.
  case_decide as Hjj; subst.
  - by rewrite list_lookup_insert_eq.
  - by rewrite list_lookup_insert_ne.
Qed.

Lemma rectangular_lt df j :
  rectangular df → (j < length (schema df))%nat →
  Forall (λ r : row, (j < length r.2)%nat) (rows df).
Proof.
  unfold rectangular. intros H Hj. eapply Forall_impl; [done |].
  simpl. intros r ->. done.
Qed.

Lemma columns_length df : length (columns df) = length (schema df).
Proof. unfold columns. by rewrite length_fmap. Qed.

Lemma getitem_Ok df name j :
  col_pos name (columns df) = Some j → getitem df name = Ok (column_at j df).
Proof. intros H. unfold getitem, get_loc. by rewrite H. Qed.

Lemma column_at_length j df : length (column_at j df) = length (rows df).
Proof. unfold column_at. by rewrite length_fmap. Qed.

(** Assignment to a column that exists: the column takes the values and
    the dtype, nothing else moves. *)
Lemma setitem_existing df name dt vals j :
  col_pos name (columns df) = Some j →
  length vals = length (rows df) →
  rectangular df →
  ∃ out, setitem df name dt vals = Ok out ∧
    schema out = <[j := (name, dt)]> (schema df) ∧
    columns out = columns df ∧
    index out = index df ∧
    rectangular out ∧
    ∀ j', column_at j' out = if decide (j' = j) then vals else column_at j' df.
Proof.
  intros Hj Hlen Hrect. unfold setitem. rewrite decide_True by done.
  rewrite Hj. eexists. split; [done |]. simpl.
  pose proof (col_pos_lt _ _ _ Hj) as Hlt. rewrite columns_length in Hlt.
  apply col_pos_Some in Hj as [Hj _].
  split; [done |]. split; [|split; [|split]].
  - unfold columns. simpl. rewrite list_fmap_insert. simpl.
    by apply list_insert_id.
  - unfold index. simpl. clear -Hlen. revert vals Hlen.
    induction (rows df) as [|r rs IH]; intros [|v vals] ?; simplify_eq/=;
      [done |]. by rewrite IH.
  - unfold rectangular in *. simpl. rewrite length_insert.
    clear -Hlen Hrect. revert vals Hlen.
    induction Hrect as [|r rs Hr Hrs IH]; intros [|v vals] ?; simplify_eq/=;
      constructor; [simpl; by rewrite length_insert | by apply IH].
  - intros j'. unfold column_at. simpl.
    apply column_at_insert; [done | by apply rectangular_lt].
Qed.

Lemma schema_dtype df j f dt :
  schema df !! j = Some (f, dt) →
  columns df !! j = Some f ∧ (schema df).*2 !! j = Some dt.
Proof. intros H. unfold columns. rewrite !list_lookup_fmap, H. done. Qed.

(** ** Categorical Encoder *)

Lemma fit_app_diag S : fit (S ++ S) = fit S.
Proof. apply np_unique_app_diag. Qed.

Lemma encode_column_fit_once_eq py df f :
  encode_column py df f = encode_column_fit_once py df f.
Proof.
  unfold encode_column, encode_column_fit_once.
  destruct (getitem df f) as [s|e]; simpl; [by rewrite fit_app_diag | done].
Qed.

Lemma foldR_ext {A B} (f g : B → A → result B) (l : list A) (b : B) :
  (∀ b x, f b x = g b x) → foldR f l b = foldR g l b.
Proof.
  intros H. revert b. induction l as [|x l IH]; intros b; simpl; [done |].
  rewrite H. destruct (g b x); simpl; [apply IH | done].
Qed.

(** C10.  Fitting on the value list concatenated with itself gives the
    classes of fitting on the value list once, and the encoder built on
    the single fit returns on every frame what the script's encoder
    returns. *)
Theorem convert_fit_once_eq py :
  (∀ S, fit (S ++ S) = fit S) ∧
  (∀ S s, label_code (S ++ S) s = label_code S s) ∧
  (∀ df, convert_categorical_to_numerical py df = convert_fit_once py df).
Proof.
  split; [apply fit_app_diag |]. split.
  - intros S s. unfold label_code. by rewrite fit_app_diag.
  - intros df. apply foldR_ext. intros b f.
    unfold encode_step, encode_step_fit_once.
    by rewrite encode_column_fit_once_eq.
Qed.

Lemma encode_column_Ok py df f j :
  col_pos f (columns df) = Some j →
  rectangular df →
  ∃ out, encode_column py df f = Ok out ∧
    schema out = <[j := (f, Int64)]> (schema df) ∧
    columns out = columns df ∧
    index out = index df ∧
    rectangular out ∧
    ∀ j', column_at j' out
          = if decide (j' = j) then encode_cells py (column_at j df)
            else column_at j' df.
Proof.
  intros Hj Hrect. unfold encode_column.
  rewrite (getitem_Ok _ _ _ Hj). simpl.
  rewrite fit_app_diag, transform_fit by done. simpl.
  destruct (setitem_existing df f Int64
              (code_cell <$> (label_code (astype_str py <$> column_at j df)
                                <$> (astype_str py <$> column_at j df))) j)
    as (out & -> & ? & ? & ? & ? & Hcol); [done | | done |].
  { by rewrite !length_fmap, column_at_length. }
  exists out. repeat (split; [done |]).
  intros j'. rewrite Hcol. case_decide; [|done].
  unfold encode_cells. by rewrite <-!list_fmap_compose.
Qed.

Lemma dtype_of_Ok df f j dt :
  col_pos f (columns df) = Some j → schema df !! j = Some (f, dt) →
  dtype_of df f = Ok dt.
Proof.
  intros Hj Hs. unfold dtype_of, get_loc. rewrite Hj. simpl.
  apply schema_dtype in Hs as [_ ->]. done.
Qed.

Lemma col_pos_schema df f j :
  col_pos f (columns df) = Some j → ∃ dt, schema df !! j = Some (f, dt).
Proof.
  intros [Hj _]%col_pos_Some. unfold columns in Hj.
  rewrite list_lookup_fmap in Hj.
  destruct (schema df !! j) as [[g dt]|]; simplify_eq/=. eauto.
Qed.

Lemma col_pos_elem_of name cols :
  name ∈ cols → ∃ j, col_pos name cols = Some j.
Proof.
  intros H. destruct (col_pos name cols) as [j|] eqn:Hj; [eauto |].
  by apply col_pos_None in Hj.
Qed.

(** One turn of the loop: the column named [f] is rewritten when it is an
    object column other than the timestamp, and nothing else changes. *)
Lemma encode_step_Ok py df f :
  f ∈ columns df → rectangular df →
  ∃ out, encode_step py df f = Ok out ∧
    columns out = columns df ∧ index out = index df ∧ rectangular out ∧
    ∀ j g dt, schema df !! j = Some (g, dt) →
      if decide (g = f ∧ encoded_column df j g dt)
      then column_at j out = encode_cells py (column_at j df)
           ∧ schema out !! j = Some (g, Int64)
      else column_at j out = column_at j df ∧ schema out !! j = Some (g, dt).
Proof.
  intros [j0 Hj0]%col_pos_elem_of Hrect.
  destruct (col_pos_schema _ _ _ Hj0) as [dt0 Hdt0].
  unfold encode_step. rewrite (dtype_of_Ok _ _ _ _ Hj0 Hdt0). simpl.
  destruct (bool_decide (dt0 = Object) && bool_decide (f ≠ "timestamp"))
    eqn:Hc.
  - apply andb_true_iff in Hc as [Hobj%bool_decide_eq_true Hts%bool_decide_eq_true].
    destruct (encode_column_Ok py df f j0 Hj0 Hrect)
      as (out & -> & Hsch & ? & ? & ? & Hcol).
    exists out. repeat (split; [done |]).
    intros j g dt Hs. rewrite Hcol, Hsch.
    destruct (decide (j = j0)) as [->|Hne].
    + rewrite Hdt0 in Hs. simplify_eq.
      rewrite decide_True by done.
      split; [done |]. apply list_lookup_insert_eq.
      by eapply lookup_lt_Some.
    + rewrite decide_False; [by rewrite list_lookup_insert_ne |].
      intros (-> & Hj & _). congruence.
  - exists df. repeat (split; [done |]).
    intros j g dt Hs. rewrite decide_False; [done |].
    intros (-> & Hj & -> & Hts).
    assert (j = j0) as -> by congruence. rewrite Hdt0 in Hs. simplify_eq.
    apply andb_false_iff in Hc as [Hc%bool_decide_eq_false | Hc%bool_decide_eq_false];
      [done | by apply Hc].
Qed.

(** The loop over a list of column names. *)
Lemma encode_loop_Ok py names : ∀ df,
  names ⊆ columns df → rectangular df →
  ∃ out, foldR (encode_step py) names df = Ok out ∧
    columns out = columns df ∧ index out = index df ∧ rectangular out ∧
    ∀ j g dt, schema df !! j = Some (g, dt) →
      if decide (g ∈ names ∧ encoded_column df j g dt)
      then column_at j out = encode_cells py (column_at j df)
           ∧ schema out !! j = Some (g, Int64)
      else column_at j out = column_at j df ∧ schema out !! j = Some (g, dt).
Proof.
  induction names as [|f names IH]; intros df Hsub Hrect.
  - exists df. do 4 (split; [done |]). intros j g dt Hs.
    rewrite decide_False; [done |]. intros [[]%elem_of_nil _].
  - destruct (encode_step_Ok py df f) as (df1 & Hstep & Hcols & Hidx & Hrect1 & H1);
      [apply Hsub; left | done |].
    destruct (IH df1) as (out & Hfold & Hcols' & Hidx' & Hrect' & H2);
      [rewrite Hcols; intros x Hx; apply Hsub; by right | done |].
    exists out. simpl. rewrite Hstep. simpl.
    split; [done |]. split; [congruence |]. split; [congruence |].
    split; [done |].
    intros j g dt Hs. specialize (H1 j g dt Hs).
    destruct (decide (g = f ∧ encoded_column df j g dt)) as [[-> Henc]|Hn1].
    + destruct H1 as [Hc1 Hs1]. specialize (H2 j f Int64 Hs1).
      rewrite decide_False in H2 by (by intros (_ & _ & ? & _)).
      rewrite decide_True by (split; [left | done]).
      destruct H2 as [-> ->]. done.
    + destruct H1 as [Hc1 Hs1]. specialize (H2 j g dt Hs1).
      unfold encoded_column in *. rewrite Hcols in H2.
      destruct (decide (g ∈ names ∧ col_pos g (columns df) = Some j
                        ∧ dt = Object ∧ g ≠ "timestamp")) as [Hy|Hn2].
      * rewrite decide_True by (destruct Hy; split; [by right | done]).
        destruct H2 as [-> ->]. by rewrite Hc1.
      * rewrite decide_False.
        { destruct H2 as [-> ->]. by rewrite Hc1. }
        intros [[->|?]%elem_of_cons ?]; [by apply Hn1 | by apply Hn2].
Qed.

(** C8.  On a rectangular frame the Categorical Encoder returns; the
    column names, the row labels and the shape are kept.  A column of
    dtype object other than the timestamp (the first of its name) becomes
    an integer column in which every cell is the code of its string
    form; the code is below the number of distinct string forms of the
    column, distinct string forms have distinct codes, every number below
    the count is the code of a string form of the column, and the codes
    follow the lexicographic order of the string forms.  Every other
    column keeps its cells and its dtype. *)
Theorem convert_categorical_to_numerical_spec py df :
  rectangular df →
  ∃ out, convert_categorical_to_numerical py df = Ok out ∧
         encoder_result py df out.
Proof.
  intros Hrect.
  destruct (encode_loop_Ok py (columns df) df) as (out & Hout & ? & ? & ? & H);
    [done | done |].
  exists out. split; [done |]. unfold encoder_result. do 3 (split; [done |]).
  intros j f dt Hs. cbv zeta. specialize (H j f dt Hs).
  destruct (decide (encoded_column df j f dt)) as [Henc|Hn].
  - rewrite decide_True in H.
    2:{ split; [|done]. apply schema_dtype in Hs as [Hs _].
        by eapply list_elem_of_lookup_2. }
    destruct H as [Hc Hsch]. split; [done |]. split; [done |].
    split; [apply label_code_lt |]. split; [apply label_code_inj |].
    split; [apply label_code_surj | apply label_code_mono].
  - rewrite decide_False in H by (by intros [_ ?]). by destruct H.
Qed.

(** ** Filters *)

Lemma filter_none {A} (P : A → Prop) `{∀ x, Decision (P x)} (l : list A) :
  (∀ x, x ∈ l → ¬ P x) → filter P l = [].
Proof.
  induction l as [|x l IH]; intros HP; [done |].
  rewrite filter_cons_False by (apply HP; left).
  apply IH. intros y Hy. apply HP. by right.
Qed.

Lemma filter_all {A} (P : A → Prop) `{∀ x, Decision (P x)} (l : list A) :
  (∀ x, x ∈ l → P x) → filter P l = l.
Proof.
  induction l as [|x l IH]; intros HP; [done |].
  rewrite filter_cons_True by (apply HP; left).
  f_equal. apply IH. intros y Hy. apply HP. by right.
Qed.

(** ** Joiner *)

Lemma filter_unique_key (k : cell) (l : list row) (m : row) :
  NoDup l.*1 → m ∈ l → m.1 = k → filter (λ m' : row, m'.1 = k) l = [m].
Proof.
  induction l as [|x l IH]; intros Hnd Hm Hk; [by apply elem_of_nil in Hm |].
  apply NoDup_cons in Hnd as [Hx Hnd].
  fold (fmap (M:=list) (@fst cell (list cell)) l) in Hx, Hnd.
  apply elem_of_cons in Hm as [<-|Hm].
  - rewrite filter_cons_True by done. f_equal.
    apply filter_none. intros y Hy Hyk. apply Hx.
    assert (m.1 = y.1) as -> by congruence. apply list_elem_of_fmap. eauto.
  - rewrite filter_cons_False; [by apply IH |].
    intros Hxk. apply Hx.
    assert (x.1 = m.1) as -> by congruence. apply list_elem_of_fmap. eauto.
Qed.

Lemma filter_no_key (k : cell) (l : list row) :
  (∀ m : row, m ∈ l → m.1 ≠ k) → filter (λ m' : row, m'.1 = k) l = [].
Proof. apply filter_none. Qed.

Lemma bind_singleton {A B} (f : A → list B) (g : A → B) (l : list A) :
  (∀ x, x ∈ l → f x = [g x]) → l ≫= f = g <$> l.
Proof.
  induction l as [|x l IH]; intros H; csimpl; [done |].
  rewrite (H x) by left. rewrite IH; [done |]. intros y Hy. apply H. by right.
Qed.

Lemma merge_left_rows left right j :
  NoDup (index right) →
  (r ← rows left;
   match filter (λ m : row, m.1 = cell_at j r) (rows right) with
   | [] => [(r.1, r.2 ++ replicate (length (schema right)) NaN)]
   | ms => (λ m : row, (r.1, r.2 ++ m.2)) <$> ms
   end)
  = (λ r, joined_row right (cell_at j r) r) <$> rows left.
Proof.
  intros Hnd. apply bind_singleton. intros r _. unfold joined_row.
  destruct (filter _ (rows right)) as [|m ms] eqn:Hf; [done |].
  assert (m ∈ filter (λ m : row, m.1 = cell_at j r) (rows right)) as Hm
    by (rewrite Hf; left).
  apply list_elem_of_filter in Hm as [Hk Hm].
  rewrite (filter_unique_key _ _ m Hnd Hm Hk) in Hf. by simplify_eq.
Qed.

(** C9.  When the transaction table has a timestamp column and the macro
    table has one row per key, the join returns a table with one row per
    transaction row, in the order and under the labels of the transaction
    table: a row whose timestamp is the key of a macro row is followed by
    the cells of that macro row, and a row whose timestamp is no macro
    key is followed by a missing value in every macro column. *)
Theorem merge_left_spec left right :
  "timestamp" ∈ columns left →
  NoDup (index right) →
  ∃ out, merge_left left right "timestamp" = Ok out ∧
    length (rows out) = length (rows left) ∧
    index out = index left ∧
    length (columns out) = (length (columns left) + length (columns right))%nat ∧
    ∀ i r, rows left !! i = Some r →
      (∀ m, m ∈ rows right → m.1 = field left "timestamp" r →
            rows out !! i = Some (r.1, r.2 ++ m.2)) ∧
      ((∀ m, m ∈ rows right → m.1 ≠ field left "timestamp" r) →
       rows out !! i
       = Some (r.1, r.2 ++ replicate (length (columns right)) NaN)).
Proof.
  intros [j Hj]%col_pos_elem_of Hnd. unfold merge_left, get_loc.
  rewrite Hj. simpl. eexists. split; [done |]. simpl.
  rewrite merge_left_rows by done.
  split; [by rewrite length_fmap |]. split.
  { unfold index. simpl. rewrite <-list_fmap_compose. apply list_fmap_ext.
    intros ? r _. simpl. unfold joined_row. by destruct (filter _ _). }
  split.
  { unfold columns at 1. simpl. unfold suffixed.
    rewrite fmap_app, length_app, !length_fmap. by rewrite !columns_length. }
  intros i r Hr. rewrite list_lookup_fmap, Hr. simpl.
  rewrite (field_at _ _ _ r Hj). unfold joined_row. split.
  - intros m Hm Hk. by rewrite (filter_unique_key _ _ m Hnd Hm Hk).
  - intros Hno. rewrite (filter_no_key _ _ Hno). by rewrite columns_length.
Qed.

(** ** [KNNImputer] *)

Lemma mean_Num l : l ≠ [] → ∃ q, mean l = Num q.
Proof. destruct l; [done | intros _; simpl; eauto]. Qed.

Lemma check_cell_Ok c v :
  check_cell c = Ok v ↔ (c = NaN ∧ v = None) ∨ (∃ q, c = Num q ∧ v = Some q).
Proof.
  destruct c; simpl; split.
  - intros [= <-]. right. eauto.
  - intros [[? _] | (? & [= <-] & ->)]; done.
  - intros [= <-]. by left.
  - intros [[_ ->] | (? & ? & _)]; done.
  - done.
  - intros [[? _] | (? & ? & _)]; done.
Qed.

Lemma check_row_entry (x : list cell) (m : list (option Qc)) j :
  mapR check_cell x = Ok m →
  length m = length x ∧
  match entry m j with
  | Some q => x !! j = Some (Num q)
  | None => x !! j = None ∨ x !! j = Some NaN
  end.
Proof.
  intros H. split; [by eapply mapR_length |].
  apply mapR_Ok in H. unfold entry.
  destruct (m !! j) as [v|] eqn:Hm; simpl.
  - destruct (Forall2_lookup_r _ _ _ _ _ H Hm) as (c & Hc & Hv).
    apply check_cell_Ok in Hv as [[-> ->] | (q & -> & ->)]; auto.
  - left. apply lookup_ge_None. apply lookup_ge_None in Hm.
    apply Forall2_length in H. lia.
Qed.

Lemma check_array_Ok X M :
  check_array X = Ok M →
  M ≠ [] ∧ Forall2 (λ x m, mapR check_cell x = Ok m) X M.
Proof.
  unfold check_array. intros H. inv_Ok.
  destruct x as [|[|] ?]; simplify_eq. split; [done |]. by apply mapR_Ok.
Qed.

(** In a column that some row observes, the imputed value is a number:
    the selection of donors is not empty. *)
Lemma impute_cell_Num n M x j :
  (0 < n)%nat → valid_column M j = true → ∃ q, impute_cell n M x j = Num q.
Proof.
  intros Hn Hv. unfold impute_cell.
  set (donors := omap _ M).
  assert (donors ≠ []) as Hd.
  { apply bool_decide_eq_true, Exists_exists in Hv as (y & Hy & [v Hv]).
    intros Hnil. assert ((sq_dist x y, v) ∈ donors) as Hin.
    { apply list_elem_of_omap. exists y. split; [done |]. by rewrite Hv. }
    rewrite Hnil in Hin. by apply elem_of_nil in Hin. }
  case_bool_decide.
  - apply mean_Num. by destruct donors.
  - apply mean_Num. intros Hnil. apply fmap_nil_inv in Hnil.
    apply (f_equal length) in Hnil. rewrite length_take in Hnil.
    rewrite merge_sort_Permutation in Hnil. simpl in Hnil.
    destruct donors; simpl in *; [done | lia].
Qed.

Lemma omap_length_full {A B} (f : A → option B) (l : list A) :
  length (omap f l) = length l → Forall (λ a, is_Some (f a)) l.
Proof.
  induction l as [|a l IH]; csimpl; [constructor |].
  assert (length (omap f l) ≤ length l)%nat as Hle.
  { clear. induction l as [|b l IH]; csimpl; [done |].
    destruct (f b); simpl; lia. }
  destruct (f a) eqn:Hfa; simpl; intros Hlen.
  - constructor; [by rewrite Hfa | apply IH; lia].
  - lia.
Qed.

(** When no column is left out, a transformed row has the width of the
    row it comes from and its cells are the filled cells, in place. *)
Lemma transform_row_full n M x :
  length (transform_row n M x) = length x →
  (∀ j, (j < length x)%nat → valid_column M j = true) ∧
  ∀ j, (j < length x)%nat → transform_row n M x !! j = Some (filled n M x j).
Proof.
  unfold transform_row. intros Hlen.
  rewrite <-(length_seq (length x) 0) in Hlen at 2.
  apply omap_length_full in Hlen. rewrite Forall_forall in Hlen.
  assert (∀ j, (j < length x)%nat → valid_column M j = true) as Hvalid.
  { intros j Hj. specialize (Hlen j). rewrite elem_of_seq in Hlen.
    destruct (valid_column M j); [done |]. destruct Hlen as [? [=]]. lia. }
  split; [done |]. intros j Hj.
  assert (∀ l : list nat, (∀ i, i ∈ l → valid_column M i = true) →
    omap (λ j, if valid_column M j then Some (filled n M x j) else None) l
    = filled n M x <$> l) as Hmap.
  { intros l. induction l as [|i l IH]; intros Hl; csimpl; [done |].
    rewrite (Hl i) by left. simpl. f_equal. apply IH.
    intros i' Hi'. apply Hl. by right. }
  rewrite Hmap.
  - rewrite list_lookup_fmap, lookup_seq_lt by done. done.
  - intros i Hi. apply Hvalid. apply elem_of_seq in Hi. lia.
Qed.

(** What [fit_transform] does to a rectangular array when its result has
    the width of its argument: same number of rows, a number in every
    cell, and every observed cell kept in place. *)
Lemma fit_transform_spec n X Y w :
  (0 < n)%nat →
  fit_transform n X = Ok Y →
  Forall (λ x : list cell, length x = w) X →
  Forall (λ y : list cell, length y = w) Y →
  length Y = length X ∧
  ∀ i x y j, X !! i = Some x → Y !! i = Some y → (j < w)%nat →
    (∃ q, y !! j = Some (Num q)) ∧
    (∀ q, x !! j = Some (Num q) → y !! j = Some (Num q)).
Proof.
  intros Hn Hfit HX HY. unfold fit_transform in Hfit. inv_Ok.
  rename x into M. rename H into Hchk.
  apply check_array_Ok in Hchk as [_ HM].
  split; [rewrite length_fmap; symmetry; by eapply Forall2_length |].
  intros i x y j Hx Hy Hj.
  rewrite list_lookup_fmap in Hy.
  destruct (Forall2_lookup_l _ _ _ _ _ HM Hx) as (m & Hm & Hxm).
  rewrite Hm in Hy. simplify_eq/=.
  destruct (check_row_entry x m j Hxm) as [Hlen Hentry].
  rewrite Forall_forall in HX, HY.
  assert (length x = w) as Hxw by (apply HX; by eapply list_elem_of_lookup_2).
  assert (length (transform_row n M m) = length m) as Hw.
  { rewrite Hlen, Hxw. apply HY. apply list_elem_of_fmap. exists m.
    split; [done |]. by eapply list_elem_of_lookup_2. }
  destruct (transform_row_full n M m Hw) as [Hvalid Hcell].
  rewrite Hcell by lia. unfold filled.
  destruct (entry m j) as [v|] eqn:He.
  - split; [eauto |]. intros q Hq. congruence.
  - destruct (impute_cell_Num n M m j Hn) as [q ->]; [apply Hvalid; lia |].
    split; [eauto |]. intros q' Hq'. destruct Hentry; congruence.
Qed.

(** ** The frame operations of the imputer *)

Lemma filter_ne_fst {B} (name : string) (l : list (string * B)) :
  (filter (λ p : string * B, p.1 ≠ name) l).*1 = filter (λ c, c ≠ name) l.*1.
Proof.
  induction l as [|[a b] l IH]; [done |]. csimpl.
  rewrite !filter_cons. simpl. case_decide; csimpl; by rewrite IH.
Qed.

Lemma RangeIndex_length n : length (RangeIndex n) = n.
Proof. unfold RangeIndex. by rewrite length_fmap, length_seq. Qed.

Lemma new_DataFrame_Ok X names df :
  new_DataFrame X names = Ok df →
  df = mkDF ((λ c, (c, Float64)) <$> names) (zip (RangeIndex (length X)) X) ∧
  columns df = names ∧ values df = X ∧ index df = RangeIndex (length X) ∧
  Forall (λ x : list cell, length x = length names) X.
Proof.
  unfold new_DataFrame. case_decide as HX; [|done]. intros [= <-].
  split; [done |]. unfold columns, values, index. simpl.
  rewrite <-list_fmap_compose, snd_zip, fst_zip
    by (rewrite RangeIndex_length; lia).
  split; [|done]. by rewrite list_fmap_id.
Qed.

Lemma drop_column_Ok df name df' :
  drop_column df name = Ok df' →
  (∃ j, col_pos name (columns df) = Some j) ∧
  columns df' = filter (λ c, c ≠ name) (columns df) ∧
  values df' = drop_cells name (columns df) <$> values df.
Proof.
  unfold drop_column. intros H. inv_Ok. rename H0 into Hj.
  apply get_loc_Ok in Hj. split; [eauto |].
  unfold columns, values. simpl. split.
  - apply filter_ne_fst.
  - by rewrite <-!list_fmap_compose.
Qed.

(** The cell under a column that stays has, after the drop, the position
    of that column among the columns that stay. *)
Lemma drop_cells_lookup name f names : ∀ cells j,
  f ≠ name → length cells = length names → col_pos f names = Some j →
  ∃ j', col_pos f (filter (λ c, c ≠ name) names) = Some j' ∧
        drop_cells name names cells !! j' = cells !! j.
Proof.
  unfold drop_cells.
  induction names as [|c names IH]; intros [|v cells] j Hne Hlen Hj;
    simplify_eq/=.
  rewrite !filter_cons. simpl. case_decide as Hcf.
  - simplify_eq. rewrite !decide_True by done. exists 0%nat. simpl.
    by rewrite decide_True.
  - destruct (col_pos f names) as [j0|] eqn:Hj0; simplify_eq/=.
    destruct (IH cells j0 Hne Hlen eq_refl) as (j' & Hj' & Hl).
    destruct (decide (c ≠ name)).
    + exists (S j'). simpl. rewrite decide_False by done. by rewrite Hj'.
    + exists j'. done.
Qed.

Lemma drop_cells_length name names cells :
  length cells = length names →
  length (drop_cells name names cells) = length (filter (λ c, c ≠ name) names).
Proof.
  intros Hlen. unfold drop_cells.
  rewrite <-(fst_zip names cells) at 2 by lia.
  rewrite <-filter_ne_fst. by rewrite !length_fmap.
Qed.

Lemma col_pos_app_l f l1 l2 j :
  col_pos f l1 = Some j → col_pos f (l1 ++ l2) = Some j.
Proof.
  revert j. induction l1 as [|c l1 IH]; intros j; simpl; [done |].
  case_decide; [done |].
  destruct (col_pos f l1) as [j0|] eqn:H1; simpl; [|done].
  intros [= <-]. by rewrite (IH _ eq_refl).
Qed.

Lemma col_pos_app_r f l1 l2 :
  f ∉ l1 → col_pos f (l1 ++ l2) = (λ j, length l1 + j)%nat <$> col_pos f l2.
Proof.
  induction l1 as [|c l1 IH]; intros Hf; simpl.
  - by destruct (col_pos f l2).
  - apply not_elem_of_cons in Hf as [Hne Hf]. rewrite decide_False by done.
    rewrite IH by done. by destruct (col_pos f l2).
Qed.

Lemma setitem_new df name dt vals :
  name ∉ columns df → length vals = length (rows df) →
  setitem df name dt vals
  = Ok (mkDF (schema df ++ [(name, dt)])
          (zip_with (λ (r : row) v, (r.1, r.2 ++ [v])) (rows df) vals)).
Proof.
  intros Hn Hlen. unfold setitem. rewrite decide_True by done.
  apply col_pos_None in Hn. by rewrite Hn.
Qed.

(** ** Imputer *)

Lemma fit_transform_length n X Y : fit_transform n X = Ok Y → length Y = length X.
Proof.
  unfold fit_transform. intros H. inv_Ok.
  apply check_array_Ok in H0 as [_ HM].
  rewrite length_fmap. symmetry. by eapply Forall2_length.
Qed.

Lemma values_length df : length (values df) = length (rows df).
Proof. unfold values. by rewrite length_fmap. Qed.

Lemma filter_ne_not_elem (name : string) (names : list string) :
  name ∉ filter (λ c, c ≠ name) names.
Proof. rewrite list_elem_of_filter. by intros [? _]. Qed.

Lemma columns_mk sch rws : columns (mkDF sch rws) = sch.*1.
Proof. done. Qed.

Lemma rows_mk sch rws : rows (mkDF sch rws) = rws.
Proof. done. Qed.

(** The shape of the frame the data-table imputer returns. *)
Lemma impute_data_inv df out :
  impute_missing_values_data df = Ok out →
  let names' := filter (λ c, c ≠ "timestamp") (columns df) in
  ∃ jt Y,
    col_pos "timestamp" (columns df) = Some jt ∧
    fit_transform 5 (drop_cells "timestamp" (columns df) <$> values df) = Ok Y ∧
    Forall (λ y : list cell, length y = length names') Y ∧
    length Y = length (rows df) ∧
    columns out = names' ++ ["timestamp"] ∧
    rows out = zip_with (λ (r : row) v, (r.1, r.2 ++ [v]))
                 (zip (RangeIndex (length Y)) Y) (column_at jt df).
Proof.
  unfold impute_missing_values_data. intros H. inv_Ok.
  rename x into df1, x0 into Y, x1 into df2, x2 into ts, x3 into dt.
  apply drop_column_Ok in H0 as ([jt Hjt] & Hcols1 & Hvals1).
  apply new_DataFrame_Ok in H2 as (-> & Hcols2 & Hvals2 & Hidx2 & HY).
  rewrite (getitem_Ok _ _ _ Hjt) in H3. simplify_eq.
  pose proof (fit_transform_length _ _ _ H1) as HlenY.
  rewrite Hvals1, length_fmap, values_length in HlenY.
  rewrite setitem_new in H.
  - simplify_eq. exists jt, Y. rewrite Hvals1 in H1. rewrite Hcols1 in HY.
    do 4 (split; [done |]). split; [|done].
    rewrite columns_mk, fmap_app. f_equal. rewrite <-Hcols1. exact Hcols2.
  - rewrite Hcols2, Hcols1. apply filter_ne_not_elem.
  - rewrite rows_mk, column_at_length, length_zip_with, RangeIndex_length. lia.
Qed.

Lemma impute_data_row df out jt Y i r' :
  rows out = zip_with (λ (r : row) v, (r.1, r.2 ++ [v]))
               (zip (RangeIndex (length Y)) Y) (column_at jt df) →
  rows out !! i = Some r' →
  ∃ r y, rows df !! i = Some r ∧ Y !! i = Some y ∧
         r'.2 = y ++ [cell_at jt r].
Proof.
  intros -> Hr'.
  apply lookup_zip_with_Some in Hr' as ([l y] & v & -> & Hz & Hv).
  apply lookup_zip_with_Some in Hz as (l' & y' & [= -> ->] & _ & Hy).
  unfold column_at in Hv. apply list_lookup_fmap_Some_1 in Hv as (r & -> & Hr).
  eauto.
Qed.

(** The imputed frame has the rows of the argument, in number. *)
Lemma impute_data_length df out :
  impute_missing_values_data df = Ok out →
  length (rows out) = length (rows df).
Proof.
  intros H. destruct (impute_data_inv df out H)
    as (jt & Y & Hjt & Hfit & HY & Hlen & Hcols & Hrows).
  rewrite Hrows, length_zip_with, length_zip_with, RangeIndex_length,
    column_at_length. lia.
Qed.

(** The timestamps are reattached row position by row position. *)
Lemma impute_data_timestamps df out :
  impute_missing_values_data df = Ok out →
  field out "timestamp" <$> rows out = field df "timestamp" <$> rows df.
Proof.
  intros H. pose proof (impute_data_length df out H) as Hlen'.
  destruct (impute_data_inv df out H)
    as (jt & Y & Hjt & Hfit & HY & Hlen & Hcols & Hrows).
  apply list_eq. intros i. rewrite !list_lookup_fmap.
  destruct (rows out !! i) as [r'|] eqn:Hr'; simpl.
  - destruct (impute_data_row df out jt Y i r' Hrows Hr')
      as (r & y & -> & Hy & Hr2).
    simpl. f_equal. rewrite (field_at df _ jt) by done.
    unfold field. rewrite Hcols, col_pos_app_r by apply filter_ne_not_elem.
    simpl. unfold cell_at. rewrite Hr2.
    rewrite Forall_forall in HY. rewrite <-(HY y), Nat.add_0_r
      by (by eapply list_elem_of_lookup_2).
    by rewrite list_lookup_middle.
  - apply lookup_ge_None in Hr'. rewrite Hlen' in Hr'.
    symmetry. apply fmap_None, lookup_ge_None. lia.
Qed.

(** C4 (amended).  When the data-table imputer returns, the columns of
    its result are the columns of its argument other than the timestamp,
    in their order, followed by the timestamp as the last column; the
    result has as many rows as the argument; and the timestamp column of
    the result holds, row position by row position, the timestamp values
    of the argument. *)
Theorem impute_missing_values_data_frame df out :
  impute_missing_values_data df = Ok out →
  columns out = filter (λ c, c ≠ "timestamp") (columns df) ++ ["timestamp"] ∧
  length (rows out) = length (rows df) ∧
  field out "timestamp" <$> rows out = field df "timestamp" <$> rows df.
Proof.
  intros H. destruct (impute_data_inv df out H)
    as (jt & Y & Hjt & Hfit & HY & Hlen & Hcols & Hrows).
  split; [exact Hcols |]. split.
  - by apply impute_data_length.
  - by apply impute_data_timestamps.
Qed.

Lemma fst_zip_with_row {B} (f : row → B → list cell) (l : list row)
    (k : list B) :
  length l = length k →
  (zip_with (λ (r : row) v, (r.1, f r v)) l k).*1 = l.*1.
Proof.
  revert k. induction l as [|r l IH]; intros [|v k] ?; simplify_eq/=; [done |].
  f_equal. by apply IH.
Qed.

(** The data-table imputer numbers the rows of its result afresh. *)
Lemma impute_missing_values_data_index df out :
  impute_missing_values_data df = Ok out →
  index out = RangeIndex (length (rows df)).
Proof.
  intros H. destruct (impute_data_inv df out H)
    as (jt & Y & Hjt & Hfit & HY & Hlen & Hcols & Hrows).
  unfold index. rewrite Hrows.
  rewrite (fst_zip_with_row (λ r v, r.2 ++ [v])).
  - rewrite fst_zip, Hlen; [done | rewrite RangeIndex_length; lia].
  - rewrite length_zip_with, RangeIndex_length, column_at_length. lia.
Qed.

Lemma cell_at_Num j (r : row) q : cell_at j r = Num q → r.2 !! j = Some (Num q).
Proof. unfold cell_at. destruct (r.2 !! j); simpl; congruence. Qed.

Lemma rectangular_values df :
  rectangular df →
  Forall (λ x : list cell, length x = length (columns df)) (values df).
Proof.
  unfold rectangular, values. intros H. apply Forall_fmap.
  eapply Forall_impl; [done |]. simpl. intros r ->. by rewrite columns_length.
Qed.

Lemma values_lookup df i r : rows df !! i = Some r → values df !! i = Some r.2.
Proof. intros H. unfold values. by rewrite list_lookup_fmap, H. Qed.

(** The shape of the frame the macro imputer returns. *)
Lemma impute_macro_inv df out :
  impute_missing_values_macro df = Ok out →
  ∃ Y,
    fit_transform 5 (values df) = Ok Y ∧
    Forall (λ y : list cell, length y = length (columns df)) Y ∧
    length Y = length (rows df) ∧
    columns out = columns df ∧
    rows out = zip (index df) Y.
Proof.
  unfold impute_missing_values_macro. intros H. inv_Ok.
  rename x into Y, x0 into df1.
  apply new_DataFrame_Ok in H1 as (Hdf1 & Hcols1 & Hvals1 & Hidx1 & HY).
  pose proof (fit_transform_length _ _ _ H0) as HlenY.
  rewrite values_length in HlenY.
  unfold set_index in H. case_decide; [|done]. simplify_eq.
  exists Y. do 3 (split; [done |]). split; [done |].
  rewrite rows_mk. by rewrite Hvals1.
Qed.

(** The data-table imputer: every cell outside the timestamp column is a
    number, and the numbers of the argument stay where they are. *)
Lemma impute_data_cells df out :
  rectangular df →
  impute_missing_values_data df = Ok out →
  (∀ r' f, r' ∈ rows out → f ∈ columns out → f ≠ "timestamp" →
           ∃ q, field out f r' = Num q) ∧
  (∀ i r r' f q, rows df !! i = Some r → rows out !! i = Some r' →
                 f ≠ "timestamp" → field df f r = Num q →
                 field out f r' = Num q).
Proof.
  intros Hrect H. destruct (impute_data_inv df out H)
    as (jt & Y & Hjt & Hfit & HY & Hlen & Hcols & Hrows).
  set (names' := filter (λ c, c ≠ "timestamp") (columns df)) in *.
  assert (Forall (λ x : list cell, length x = length names')
            (drop_cells "timestamp" (columns df) <$> values df)) as HX.
  { apply Forall_fmap. eapply Forall_impl; [by apply rectangular_values |].
    simpl. intros x Hx. by apply drop_cells_length. }
  destruct (fit_transform_spec 5 _ Y _ ltac:(lia) Hfit HX HY) as [_ Hspec].
  assert (∀ i r r' f j', rows df !! i = Some r → rows out !! i = Some r' →
            col_pos f names' = Some j' →
            ∃ y, Y !! i = Some y ∧ field out f r' = default NaN (y !! j') ∧
                 (j' < length names')%nat) as Hfield.
  { intros i r r' f j' Hr Hr' Hj'.
    destruct (impute_data_row df out jt Y i r' Hrows Hr')
      as (r0 & y & Hr0 & Hy & Hr2).
    exists y. split; [done |].
    pose proof (col_pos_lt _ _ _ Hj') as Hlt. split; [|done].
    unfold field. rewrite Hcols, (col_pos_app_l _ _ _ _ Hj').
    unfold cell_at. rewrite Hr2, lookup_app_l; [done |].
    rewrite Forall_forall in HY. rewrite (HY y); [done |].
    by eapply list_elem_of_lookup_2. }
  split.
  - intros r' f [i Hr']%list_elem_of_lookup Hf Hts.
    rewrite Hcols in Hf. apply elem_of_app in Hf as [Hf | Hf%list_elem_of_singleton];
      [|done].
    apply col_pos_elem_of in Hf as [j' Hj'].
    destruct (impute_data_row df out jt Y i r' Hrows Hr')
      as (r & y0 & Hr & _ & _).
    destruct (Hfield i r r' f j' Hr Hr' Hj') as (y & Hy & -> & Hlt).
    destruct (Hspec i _ y j' ltac:(by rewrite list_lookup_fmap,
                (values_lookup _ _ _ Hr)) Hy Hlt) as [[q ->] _].
    eauto.
  - intros i r r' f q Hr Hr' Hts Hq.
    unfold field in Hq.
    destruct (col_pos f (columns df)) as [j|] eqn:Hj; [|done].
    apply cell_at_Num in Hq.
    destruct (drop_cells_lookup "timestamp" f (columns df) r.2 j)
      as (j' & Hj' & Hl); [done | | done |].
    { assert (r ∈ rows df) as Hin by (by eapply list_elem_of_lookup_2).
      unfold rectangular in Hrect. rewrite Forall_forall in Hrect.
      rewrite (Hrect r Hin). by rewrite columns_length. }
    destruct (Hfield i r r' f j' Hr Hr' Hj') as (y & Hy & -> & Hlt).
    destruct (Hspec i _ y j' ltac:(by rewrite list_lookup_fmap,
                (values_lookup _ _ _ Hr)) Hy Hlt) as [_ Hkeep].
    rewrite (Hkeep q); [done |]. by rewrite Hl.
Qed.

(** The macro imputer: the same, over all columns. *)
Lemma impute_macro_cells df out :
  rectangular df →
  impute_missing_values_macro df = Ok out →
  (∀ r' f, r' ∈ rows out → f ∈ columns out → ∃ q, field out f r' = Num q) ∧
  (∀ i r r' f q, rows df !! i = Some r → rows out !! i = Some r' →
                 field df f r = Num q → field out f r' = Num q).
Proof.
  intros Hrect H. destruct (impute_macro_inv df out H)
    as (Y & Hfit & HY & Hlen & Hcols & Hrows).
  destruct (fit_transform_spec 5 _ Y _ ltac:(lia) Hfit
              (rectangular_values df Hrect) HY) as [_ Hspec].
  assert (∀ i r', rows out !! i = Some r' →
            ∃ r, rows df !! i = Some r ∧ Y !! i = Some r'.2) as Hrow.
  { intros i [l y] Hr'. rewrite Hrows in Hr'.
    apply lookup_zip_with_Some in Hr' as (l' & y' & [= -> ->] & Hl & Hy).
    unfold index in Hl. apply list_lookup_fmap_Some_1 in Hl as (r & _ & Hr).
    eauto. }
  split.
  - intros r' f [i Hr']%list_elem_of_lookup Hf.
    rewrite Hcols in Hf. apply col_pos_elem_of in Hf as [j Hj].
    destruct (Hrow i r' Hr') as (r & Hr & Hy).
    destruct (Hspec i _ _ j (values_lookup _ _ _ Hr) Hy
                (col_pos_lt _ _ _ Hj)) as [[q Hq] _].
    exists q. unfold field. rewrite Hcols, Hj. unfold cell_at. by rewrite Hq.
  - intros i r r' f q Hr Hr' Hq. unfold field in *. rewrite Hcols.
    destruct (col_pos f (columns df)) as [j|] eqn:Hj; [|done].
    apply cell_at_Num in Hq.
    destruct (Hrow i r' Hr') as (r0 & Hr0 & Hy). simplify_eq.
    destruct (Hspec i _ _ j (values_lookup _ _ _ Hr) Hy
                (col_pos_lt _ _ _ Hj)) as [_ Hkeep].
    unfold cell_at. by rewrite (Hkeep q Hq).
Qed.

(** C5.  On a rectangular table, when the imputer returns: the result has
    the rows of the argument, in number and in order (every number of the
    argument is found in the same row and column of the result; the
    data-table variant keeps the timestamps row by row, the macro variant
    keeps the row labels), and no cell of the result is missing, the
    timestamp column of the data-table variant apart. *)
Theorem imputer_leaves_no_missing_value df out :
  rectangular df →
  (impute_missing_values_data df = Ok out → imputed_data df out) ∧
  (impute_missing_values_macro df = Ok out → imputed_macro df out).
Proof.
  intros Hrect. split; intros H.
  - pose proof (impute_data_length df out H) as Hlen.
    pose proof (impute_data_timestamps df out H) as Hts.
    destruct (impute_data_cells df out Hrect H) as [Hnum Hkeep].
    unfold imputed_data. done.
  - destruct (impute_macro_inv df out H)
      as (Y & Hfit & HY & Hlen & Hcols & Hrows).
    destruct (impute_macro_cells df out Hrect H) as [Hnum Hkeep].
    assert (index out = index df) as Hidx.
    { unfold index at 1. rewrite Hrows, fst_zip; [done |].
      unfold index. rewrite length_fmap. lia. }
    unfold imputed_macro. split; [|done].
    unfold index in Hidx. apply (f_equal length) in Hidx.
    by rewrite !length_fmap in Hidx.
Qed.

(** *** When the imputer returns *)

Lemma mapR_total {A B} (f : A → result B) (l : list A) :
  (∀ x, x ∈ l → ∃ y, f x = Ok y) → ∃ ys, mapR f l = Ok ys.
Proof.
  induction l as [|x l IH]; intros H; simpl; [by eexists |].
  destruct (H x) as [y ->]; [left |].
  destruct IH as [ys ->]; [intros z Hz; apply H; by right |].
  simpl. by eexists.
Qed.

Lemma transform_row_length n M x :
  (∀ j, (j < length x)%nat → valid_column M j = true) →
  length (transform_row n M x) = length x.
Proof.
  intros Hvalid. unfold transform_row.
  rewrite <-(length_seq (length x) 0) at 2.
  assert (∀ l : list nat, (∀ j, j ∈ l → valid_column M j = true) →
    length (omap (λ j, if valid_column M j then Some (filled n M x j)
                       else None) l) = length l) as Hlen.
  { intros l. induction l as [|i l IH]; intros Hl; csimpl; [done |].
    rewrite (Hl i) by left. simpl. f_equal. apply IH.
    intros j Hj. apply Hl. by right. }
  apply Hlen. intros j Hj%elem_of_seq. apply Hvalid. lia.
Qed.

(** On a rectangular numeric array with at least one row and one column,
    in which every column has an observed value, [fit_transform] returns
    an array of the same width. *)
Lemma fit_transform_returns n X w :
  X ≠ [] → (0 < w)%nat →
  Forall (λ x : list cell, length x = w) X →
  Forall (Forall (λ c, ∀ s, c ≠ Str s)) X →
  (∀ j, (j < w)%nat → ∃ x q, x ∈ X ∧ x !! j = Some (Num q)) →
  ∃ Y, fit_transform n X = Ok Y ∧ Forall (λ y : list cell, length y = w) Y.
Proof.
  intros Hne Hw Hrect Hnum Hobs.
  destruct (mapR_total (mapR check_cell) X) as [M HM].
  { intros x Hx. apply mapR_total. intros c Hc.
    rewrite Forall_forall in Hnum. specialize (Hnum x Hx).
    rewrite Forall_forall in Hnum. specialize (Hnum c Hc).
    destruct c; simpl; try by eexists. by destruct (Hnum s). }
  pose proof HM as HF. apply mapR_Ok in HF.
  assert (Forall (λ m : list (option Qc), length m = w) M) as HMw.
  { apply Forall_forall. intros m [i Hm]%list_elem_of_lookup.
    destruct (Forall2_lookup_r _ _ _ _ _ HF Hm) as (x & Hx & Hxm).
    apply mapR_length in Hxm. rewrite Hxm.
    rewrite Forall_forall in Hrect. apply Hrect.
    by eapply list_elem_of_lookup_2. }
  assert (∀ j, (j < w)%nat → valid_column M j = true) as Hvalid.
  { intros j Hj. destruct (Hobs j Hj) as (x & q & [i Hx]%list_elem_of_lookup & Hq).
    destruct (Forall2_lookup_l _ _ _ _ _ HF Hx) as (m & Hm & Hxm).
    apply bool_decide_eq_true, Exists_exists. exists m.
    split; [by eapply list_elem_of_lookup_2 |].
    destruct (check_row_entry x m j Hxm) as [_ He].
    destruct (entry m j); [done |]. destruct He; congruence. }
  exists (transform_row n M <$> M). split.
  - unfold fit_transform, check_array. rewrite HM. simpl.
    destruct M as [|m M]; [by apply Forall2_nil_inv_r in HF |].
    apply Forall_cons in HMw as [Hm _].
    destruct m; [simpl in Hm; lia | done].
  - apply Forall_fmap. eapply Forall_impl; [exact HMw |].
    simpl. intros m Hm. rewrite transform_row_length; [done |].
    intros j Hj. apply Hvalid. lia.
Qed.

(** X17.  The macro imputer returns on every rectangular numeric table
    with at least one row and one column in which every column has an
    observed value and the column names are distinct. *)
Lemma impute_missing_values_macro_returns df :
  rectangular df → rows df ≠ [] → schema df ≠ [] →
  (∀ r c s, r ∈ rows df → c ∈ r.2 → c ≠ Str s) →
  (∀ f, f ∈ columns df → ∃ r q, r ∈ rows df ∧ field df f r = Num q) →
  NoDup (columns df) →
  ∃ out, impute_missing_values_macro df = Ok out.
Proof.
  intros Hrect Hrows Hsch Hnum Hobs Hnd.
  destruct (fit_transform_returns 5 (values df) (length (columns df)))
    as (Y & HY & HYw).
  - unfold values. by destruct (rows df).
  - rewrite columns_length. destruct (schema df); [done | simpl; lia].
  - by apply rectangular_values.
  - unfold values. apply Forall_fmap, Forall_forall. intros r Hr.
    apply Forall_forall. intros c Hc s. by eapply Hnum.
  - intros j Hj. destruct (lookup_lt_is_Some_2 _ _ Hj) as [f Hf].
    destruct (Hobs f) as (r & q & Hr & Hq); [by eapply list_elem_of_lookup_2 |].
    exists r.2, q. split; [by apply list_elem_of_fmap_2 |].
    apply cell_at_Num. unfold field in Hq.
    destruct (col_pos f (columns df)) as [j'|] eqn:Hj'; [|done].
    apply col_pos_Some in Hj' as [Hj' _].
    by rewrite (NoDup_lookup _ _ _ _ Hnd Hf Hj').
  - unfold impute_missing_values_macro. rewrite HY. simpl.
    unfold new_DataFrame. rewrite decide_True by done. simpl.
    unfold set_index. rewrite decide_True; [by eexists |].
    rewrite rows_mk, length_zip_with, RangeIndex_length.
    apply fit_transform_length in HY. rewrite values_length in HY.
    unfold index. rewrite length_fmap. lia.
Qed.

(** ** Rule-Based Filter: one removal step *)

Lemma zip_fmap_self {A B C} (f : A → B) (g : A → C) (l : list A) :
  zip (f <$> l) (g <$> l) = (λ x, (f x, g x)) <$> l.
Proof. induction l as [|x l IH]; csimpl; [done | by rewrite IH]. Qed.

Lemma zip_with_fmap_self {A B C} (f : A → B → C) (g : A → B) (l : list A) :
  zip_with f l (g <$> l) = (λ x, f x (g x)) <$> l.
Proof. induction l as [|x l IH]; csimpl; [done | by rewrite IH]. Qed.

Lemma rule_test_columns df df' ru r :
  columns df' = columns df → rule_test df' ru r = rule_test df ru r.
Proof. intros H. destruct ru; simpl; unfold field; by rewrite H. Qed.

(** A removal step computes its mask row by row with [rule_test]. *)
Lemma getitem_inv df name s :
  getitem df name = Ok s →
  ∃ j, col_pos name (columns df) = Some j ∧ s = column_at j df.
Proof.
  unfold getitem. intros H. apply bind_Ok in H as (j & Hj & H).
  apply get_loc_Ok in Hj. simplify_eq. eauto.
Qed.

Lemma apply_rule_inv df ru df' :
  apply_rule df ru = Ok df' →
  rule_columns ru ⊆ columns df ∧
  ∃ mask, mapR (rule_test df ru) (rows df) = Ok mask ∧
          df' = drop df (masked_index df mask).
Proof.
  destruct ru as [op c1 c2 | op c x]; simpl.
  - unfold drop_where2. intros H.
    apply bind_Ok in H as (a & (j1 & Hj1 & ->)%getitem_inv & H).
    apply bind_Ok in H as (b & (j2 & Hj2 & ->)%getitem_inv & H).
    apply bind_Ok in H as (mask & Hmask & H). simplify_eq. split.
    { intros c [->|[->|[]%elem_of_nil]%elem_of_cons]%elem_of_cons;
        apply col_pos_None_not; congruence. }
    exists mask. split; [|done].
    unfold cmp_series, column_at in Hmask.
    rewrite zip_fmap_self, mapR_fmap in Hmask. rewrite <-Hmask.
    apply mapR_ext. intros r _. simpl.
    by rewrite (field_at _ _ _ r Hj1), (field_at _ _ _ r Hj2).
  - unfold drop_where. intros H.
    apply bind_Ok in H as (a & (j & Hj & ->)%getitem_inv & H).
    apply bind_Ok in H as (mask & Hmask & H). simplify_eq. split.
    { intros c' [->|[]%elem_of_nil]%elem_of_cons.
      apply col_pos_None_not; congruence. }
    exists mask. split; [|done].
    unfold cmp_scalar, column_at in Hmask. rewrite mapR_fmap in Hmask.
    rewrite <-Hmask. apply mapR_ext. intros r _. simpl.
    by rewrite (field_at _ _ _ r Hj).
Qed.

Lemma masked_index_spec df (test : row → result bool) mask l :
  mapR test (rows df) = Ok mask →
  l ∈ masked_index df mask ↔ ∃ r, r ∈ rows df ∧ test r = Ok true ∧ r.1 = l.
Proof.
  unfold masked_index. rewrite mapR_Ok. generalize (rows df). intros rs H.
  induction H as [|r b rs mask Hr H IH]; csimpl.
  - split; [by intros ?%elem_of_nil | by intros (? & ?%elem_of_nil & _)].
  - rewrite filter_cons. simpl. destruct b.
    + rewrite decide_True by done. csimpl. rewrite elem_of_cons, IH. split.
      * intros [-> | (r' & ? & ? & ?)]; [exists r | exists r'];
          (split; [by (left + right) | done]).
      * intros (r' & [->|?]%elem_of_cons & ? & ?); [by left | right; eauto].
    + rewrite decide_False by done. rewrite IH. split.
      * intros (r' & ? & ? & ?). exists r'. split; [by right | done].
      * intros (r' & [->|?]%elem_of_cons & ? & ?); [congruence | eauto].
Qed.

(** After a removal step no row matches the rule, and the rows are rows
    of the frame before. *)
Lemma apply_rule_rows df ru df' :
  apply_rule df ru = Ok df' →
  schema df' = schema df ∧
  rule_columns ru ⊆ columns df ∧
  ∀ r, r ∈ rows df' → r ∈ rows df ∧ rule_test df ru r = Ok false.
Proof.
  intros H. apply apply_rule_inv in H as (Hcols & mask & Hmask & ->).
  split; [done |]. split; [done |]. intros r. simpl.
  rewrite list_elem_of_filter. intros [Hl Hr]. split; [done |].
  pose proof Hmask as HF. apply mapR_Ok in HF.
  apply list_elem_of_lookup in Hr as [i Hi].
  destruct (Forall2_lookup_l _ _ _ _ _ HF Hi) as (b & _ & Hb).
  destruct b; [|done]. destruct Hl.
  apply (masked_index_spec df _ mask _ Hmask). exists r.
  split; [by eapply list_elem_of_lookup_2 | done].
Qed.

(** A step whose rule matches no row leaves the frame as it is. *)
Lemma apply_rule_id df ru :
  rule_columns ru ⊆ columns df →
  (∀ r, r ∈ rows df → rule_test df ru r = Ok false) →
  apply_rule df ru = Ok df.
Proof.
  intros Hcols Hno.
  assert (mapR (rule_test df ru) (rows df) = Ok ((λ _, false) <$> rows df))
    as Hmask.
  { rewrite <-mapR_pure. by apply mapR_ext. }
  assert (drop df (masked_index df ((λ _, false) <$> rows df)) = df) as Hid.
  { assert (masked_index df ((λ _, false) <$> rows df) = []) as ->.
    { unfold masked_index. rewrite zip_with_fmap_self.
      rewrite (filter_none (λ p : row * bool, p.2 = true)); [done |].
      by intros p (r & -> & _)%list_elem_of_fmap. }
    unfold drop. rewrite filter_all; [apply DataFrame_eta |].
    intros r _. apply not_elem_of_nil. }
  destruct ru as [op c1 c2 | op c x]; simpl in *.
  - destruct (col_pos_elem_of c1 (columns df)) as [j1 Hj1]; [apply Hcols; set_solver |].
    destruct (col_pos_elem_of c2 (columns df)) as [j2 Hj2]; [apply Hcols; set_solver |].
    unfold drop_where2. rewrite (getitem_Ok _ _ _ Hj1), (getitem_Ok _ _ _ Hj2).
    simpl. unfold cmp_series, column_at.
    rewrite zip_fmap_self, mapR_fmap.
    rewrite (mapR_ext _ (rule_test df (Rule2 op c1 c2))).
    + rewrite Hmask. simpl. by rewrite Hid.
    + intros r _. simpl.
      by rewrite (field_at _ _ _ r Hj1), (field_at _ _ _ r Hj2).
  - destruct (col_pos_elem_of c (columns df)) as [j Hj]; [apply Hcols; set_solver |].
    unfold drop_where. rewrite (getitem_Ok _ _ _ Hj). simpl.
    unfold cmp_scalar, column_at. rewrite mapR_fmap.
    rewrite (mapR_ext _ (rule_test df (Rule1 op c x))).
    + rewrite Hmask. simpl. by rewrite Hid.
    + intros r _. simpl. by rewrite (field_at _ _ _ r Hj).
Qed.

(** ** Rule-Based Filter: the sequence of removals *)

Lemma columns_schema df df' : schema df' = schema df → columns df' = columns df.
Proof. unfold columns. by intros ->. Qed.

(** After the removals no row matches any of the rules. *)
Lemma removals_rows rules : ∀ df df',
  foldR apply_rule rules df = Ok df' →
  schema df' = schema df ∧
  (∀ r, r ∈ rows df' → r ∈ rows df) ∧
  ∀ ru, ru ∈ rules →
    rule_columns ru ⊆ columns df ∧
    ∀ r, r ∈ rows df' → rule_test df ru r = Ok false.
Proof.
  induction rules as [|ru0 rules IH]; intros df df' H; simpl in H.
  - simplify_eq. split; [done |]. split; [done |]. by intros ru ?%elem_of_nil.
  - apply bind_Ok in H as (df1 & H1 & H).
    apply apply_rule_rows in H1 as (Hs1 & Hc1 & Hr1).
    apply IH in H as (Hs & Hsub & Hrules).
    pose proof (columns_schema _ _ Hs1) as Hcols1.
    split; [congruence |]. split; [intros r Hr; by apply Hr1, Hsub |].
    intros ru [->|Hru]%elem_of_cons.
    + split; [done |]. intros r Hr. by apply Hr1, Hsub.
    + destruct (Hrules ru Hru) as [Hc Ht]. split; [by rewrite <-Hcols1 |].
      intros r Hr. rewrite <-(rule_test_columns df df1) by done. by apply Ht.
Qed.

(** On a frame none of whose rows matches a rule, the removals remove
    nothing. *)
Lemma removals_id rules df :
  (∀ ru, ru ∈ rules →
     rule_columns ru ⊆ columns df ∧
     ∀ r, r ∈ rows df → rule_test df ru r = Ok false) →
  foldR apply_rule rules df = Ok df.
Proof.
  induction rules as [|ru0 rules IH]; intros H; simpl; [done |].
  destruct (H ru0) as [Hc Ht]; [left |].
  rewrite apply_rule_id by done. simpl. apply IH.
  intros ru Hru. apply H. by right.
Qed.

(** The function is its removals followed by its two repairs. *)
Lemma handle_bad_data_unfold df :
  handle_bad_data df
  = df ← foldR apply_rule removal_rules df;
    df ← repair_state df;
    repair_build_year df.
Proof.
  unfold handle_bad_data, removal_rules. cbn [foldR apply_rule].
  repeat match goal with
    | |- context [mbind _ (drop_where2 ?op ?a ?b ?d)] =>
        destruct (drop_where2 op a b d); cbn [mbind result_bind]; [|done]
    | |- context [mbind _ (drop_where ?op ?a ?x ?d)] =>
        destruct (drop_where op a x d); cbn [mbind result_bind]; [|done]
    end.
  destruct (repair_state _); cbn [mbind result_bind]; [|done].
  by destruct (repair_build_year _).
Qed.

(** ** Rule-Based Filter: the repairs *)

Lemma set_where_other j j' x v r :
  j' ≠ j → cell_at j' (set_where j x v r) = cell_at j' r.
Proof.
  intros Hne. unfold set_where. destruct (py_eq _ _); [|done].
  unfold cell_at. simpl. by rewrite list_lookup_insert_ne.
Qed.

Lemma py_eq_true a b : py_eq a b = true → a = b.
Proof.
  destruct a, b; simpl; try done; intros ?%bool_decide_eq_true; congruence.
Qed.

Lemma set_where_same j x v r :
  cell_at j (set_where j x v r)
  = if py_eq (cell_at j r) x then v else cell_at j r.
Proof.
  unfold set_where. destruct (py_eq (cell_at j r) x) eqn:Heq; [|done].
  unfold cell_at in *. simpl.
  destruct (r.2 !! j) as [c|] eqn:Hc; simpl in *; [|done].
  rewrite list_lookup_insert_eq; [done |]. by eapply lookup_lt_Some.
Qed.

Lemma set_where_id j x r : set_where j x x r = r.
Proof.
  unfold set_where. destruct (py_eq (cell_at j r) x) eqn:Heq; [|done].
  apply py_eq_true in Heq. unfold cell_at in Heq.
  destruct (r.2 !! j) as [c|] eqn:Hc; simpl in *.
  - subst. rewrite list_insert_id by done. by destruct r.
  - rewrite list_insert_ge; [by destruct r |]. by apply lookup_ge_None.
Qed.

Lemma set_where_no j x v r : py_eq (cell_at j r) x = false → set_where j x v r = r.
Proof. unfold set_where. by intros ->. Qed.

Lemma loc_set_eq df name j x v :
  col_pos name (columns df) = Some j →
  (s ← getitem df name; mask ← cmp_scalar OpEq s x; loc_set df name mask v)
  = Ok (mkDF (schema df) (set_where j x v <$> rows df)).
Proof.
  intros Hj. rewrite (getitem_Ok _ _ _ Hj). simpl.
  unfold cmp_scalar. simpl. rewrite mapR_pure. simpl.
  unfold loc_set, get_loc. rewrite Hj. simpl. do 2 f_equal.
  unfold column_at. rewrite <-list_fmap_compose.
  rewrite zip_with_fmap_self. done.
Qed.

Lemma repair_state_inv df df' :
  repair_state df = Ok df' →
  ∃ js m, col_pos "state" (columns df) = Some js ∧
          stats_mode (column_at js df) = Ok m ∧
          df' = mkDF (schema df) (set_where js (num 33) m <$> rows df).
Proof.
  unfold repair_state. intros H.
  apply bind_Ok in H as (m & Hm & H).
  apply bind_Ok in Hm as (s & (js & Hjs & ->)%getitem_inv & Hm).
  rewrite (loc_set_eq _ _ _ _ _ Hjs) in H. simplify_eq. eauto.
Qed.

Lemma repair_build_year_inv df df' :
  repair_build_year df = Ok df' →
  ∃ jb, col_pos "build_year" (columns df) = Some jb ∧
        df' = mkDF (schema df)
                (set_where jb (num 20052009) (num 2007) <$> rows df).
Proof.
  unfold repair_build_year. intros H.
  destruct (col_pos "build_year" (columns df)) as [jb|] eqn:Hjb.
  - rewrite (loc_set_eq _ _ _ _ _ Hjb) in H. simplify_eq. eauto.
  - unfold getitem, get_loc in H. by rewrite Hjb in H.
Qed.

(** [stats.mode] returns on the non-empty arrays without strings, and
    what it returns is a number. *)
Lemma stats_mode_Ok a m :
  stats_mode a = Ok m →
  a ≠ [] ∧ Forall (λ c, ∀ s, c ≠ Str s) a ∧ ∃ q, m = Num q.
Proof.
  unfold stats_mode. intros H. apply bind_Ok in H as (xs & Hxs & H).
  destruct xs as [|x xs]; [done |]. simplify_eq. split.
  { intros ->. by simpl in Hxs. }
  split; [|eauto]. apply mapR_Ok in Hxs.
  apply Forall_forall. intros c Hc s ->.
  apply list_elem_of_lookup in Hc as [i Hi].
  by destruct (Forall2_lookup_l _ _ _ _ _ Hxs Hi) as (? & _ & ?).
Qed.

Lemma stats_mode_returns a :
  a ≠ [] → Forall (λ c, ∀ s, c ≠ Str s) a → ∃ q, stats_mode a = Ok (Num q).
Proof.
  intros Hne Hstr. unfold stats_mode.
  assert (∃ xs, mapR as_float a = Ok xs ∧ xs ≠ []) as (xs & -> & Hxs).
  { induction Hstr as [|c a Hc Hstr IH]; [done |]. destruct a as [|c' a].
    - destruct c; simpl; try by eexists. by destruct (Hc s).
    - destruct IH as (xs & Hxs & ?); [done |].
      change (mapR as_float (c :: c' :: a))
        with (y ← as_float c; ys ← mapR as_float (c' :: a); Ok (y :: ys)).
      rewrite Hxs. destruct c; simpl; try by eexists. by destruct (Hc s). }
  simpl. destruct xs; [done |]. eauto.
Qed.

(** ** Rule-Based Filter: the result *)

Ltac rule_in :=
  unfold removal_rules;
  repeat first [apply list_elem_of_here | apply list_elem_of_further].

Lemma fmap_id_on {A} (f : A → A) (l : list A) :
  (∀ x, x ∈ l → f x = x) → f <$> l = l.
Proof.
  intros H. rewrite <-(list_fmap_id l) at 2.
  apply list_fmap_ext. intros i x Hx. apply H. by eapply list_elem_of_lookup_2.
Qed.

Lemma state_not_rule_column ru : ru ∈ removal_rules → "state" ∉ rule_columns ru.
Proof.
  revert ru. apply Forall_forall. unfold removal_rules.
  repeat (apply Forall_cons; split; [by_decide |]). constructor.
Qed.

Lemma field_set_where df c j x v r name :
  col_pos name (columns df) = Some j → c ≠ name →
  field df c (set_where j x v r) = field df c r.
Proof.
  intros Hj Hc. unfold field.
  destruct (col_pos c (columns df)) as [j'|] eqn:Hj'; [|done].
  apply set_where_other. intros ->. apply Hc. by eapply col_pos_inj.
Qed.

Lemma rule_test_set_where df ru j x v r name :
  col_pos name (columns df) = Some j → name ∉ rule_columns ru →
  rule_test df ru (set_where j x v r) = rule_test df ru r.
Proof.
  intros Hj Hn. destruct ru as [op c1 c2 | op c y]; simpl in *.
  - rewrite !(field_set_where df _ j x v r name Hj); [done | |];
      intros ->; apply Hn; set_solver.
  - rewrite (field_set_where df _ j x v r name Hj); [done |].
    intros ->. apply Hn. set_solver.
Qed.

(** A row that the removals leave cannot hold the build year 20052009:
    the repair of line 116 never finds a cell to rewrite. *)
Lemma build_year_repair_id df jb :
  col_pos "build_year" (columns df) = Some jb →
  (∀ r, r ∈ rows df →
        rule_test df (Rule1 OpGt "build_year" (num 2018)) r = Ok false) →
  set_where jb (num 20052009) (num 2007) <$> rows df = rows df.
Proof.
  intros Hjb Hrule. apply fmap_id_on. intros r Hr. apply set_where_no.
  destruct (py_eq (cell_at jb r) (num 20052009)) eqn:Heq; [|done].
  apply py_eq_true in Heq. specialize (Hrule r Hr). simpl in Hrule.
  rewrite (field_at _ _ _ r Hjb), Heq in Hrule. by vm_compute in Hrule.
Qed.

(** The result of the filter: the rows the removals leave, with the
    state repaired. *)
Lemma handle_bad_data_inv df out :
  handle_bad_data df = Ok out →
  ∃ dfK js m,
    foldR apply_rule removal_rules df = Ok dfK ∧
    col_pos "state" (columns dfK) = Some js ∧
    stats_mode (column_at js dfK) = Ok m ∧
    out = mkDF (schema dfK) (set_where js (num 33) m <$> rows dfK).
Proof.
  rewrite handle_bad_data_unfold. intros H.
  apply bind_Ok in H as (dfK & HK & H).
  apply bind_Ok in H as (df1 & (js & m & Hjs & Hm & ->)%repair_state_inv & H).
  apply repair_build_year_inv in H as (jb & Hjb & ->).
  exists dfK, js, m. do 3 (split; [done |]).
  destruct (removals_rows _ _ _ HK) as (Hs & _ & Hrules).
  destruct (Hrules (Rule1 OpGt "build_year" (num 2018))) as [_ Hrule];
    [rule_in |].
  set (df1 := mkDF (schema dfK) (set_where js (num 33) m <$> rows dfK)) in *.
  rewrite (build_year_repair_id df1 jb Hjb); [done |].
  intros r (r0 & -> & Hr0)%list_elem_of_fmap.
  rewrite (rule_test_columns dfK) by done.
  rewrite (rule_test_set_where dfK _ js _ _ _ "state" Hjs).
  - rewrite (rule_test_columns df dfK) by (by apply columns_schema).
    by apply Hrule.
  - apply state_not_rule_column. rule_in.
Qed.

(** No row of the result matches a removal rule. *)
Lemma handle_bad_data_rules df out :
  handle_bad_data df = Ok out →
  ∀ ru, ru ∈ removal_rules →
    rule_columns ru ⊆ columns out ∧
    ∀ r, r ∈ rows out → rule_test out ru r = Ok false.
Proof.
  intros (dfK & js & m & HK & Hjs & Hm & ->)%handle_bad_data_inv ru Hru.
  destruct (removals_rows _ _ _ HK) as (Hs & _ & Hrules).
  destruct (Hrules ru Hru) as [Hc Ht].
  pose proof (columns_schema _ _ Hs) as Hcols.
  split; [by rewrite columns_mk, <-Hcols in * |].
  intros r (r0 & -> & Hr0)%list_elem_of_fmap.
  rewrite (rule_test_columns dfK) by done.
  rewrite (rule_test_set_where dfK _ js _ _ _ "state" Hjs)
    by (by apply state_not_rule_column).
  rewrite (rule_test_columns df dfK) by done. by apply Ht.
Qed.

(** A state 33 is left in the result only when 33 is the mode. *)
Lemma handle_bad_data_state df out r :
  handle_bad_data df = Ok out →
  r ∈ rows out → field out "state" r = num 33 →
  stats_mode (field out "state" <$> rows out) = Ok (num 33).
Proof.
  intros (dfK & js & m & HK & Hjs & Hm & ->)%handle_bad_data_inv.
  rewrite rows_mk. intros (r0 & -> & Hr0)%list_elem_of_fmap.
  rewrite (field_at _ _ js) by done. rewrite set_where_same.
  intros H33.
  assert (m = num 33) as ->.
  { destruct (py_eq (cell_at js r0) (num 33)) eqn:Heq; [done |].
    rewrite H33 in Heq. by vm_compute in Heq. }
  rewrite (fmap_id_on (set_where js (num 33) (num 33)))
    by (intros; apply set_where_id).
  rewrite <-Hm. f_equal. apply list_fmap_ext. intros i r _.
  by apply field_at.
Qed.

Lemma py_lt_false a b : py_lt (Num a) (Num b) = Ok false → (b ≤ a)%Qc.
Proof.
  simpl. intros [= H%bool_decide_eq_false]. by apply Qcnot_lt_le.
Qed.

Lemma py_le_false a b : py_le (Num a) (Num b) = Ok false → (b < a)%Qc.
Proof.
  simpl. intros [= H%bool_decide_eq_false]. by apply Qcnot_le_lt.
Qed.

Lemma py_eq_false_ne a x : py_eq a (num x) = false → a ≠ num x.
Proof.
  intros H ->. unfold num in H. simpl in H.
  by apply bool_decide_eq_false in H.
Qed.

(** C7 (amended).  In every table the Rule-Based Filter returns, every
    row satisfies, wherever the cells involved are numbers:
    life_sq ≤ full_sq, kitch_sq ≤ full_sq, floor ≤ max_floor,
    1691 < build_year ≤ 2018, max_floor ≤ 57, and the four school counts
    are not negative; full_sq is none of 0, 1, 5326; max_floor is not 0;
    build_year is not 20052009; and state is not 33 unless 33 is the mode
    of the state column. *)
Theorem handle_bad_data_invariants df out r :
  handle_bad_data df = Ok out → r ∈ rows out → filtered_row out r.
Proof.
  intros H Hr. unfold filtered_row. cbv zeta.
  pose proof (handle_bad_data_rules df out H) as Hrules.
  assert (∀ ru, ru ∈ removal_rules → rule_test out ru r = Ok false) as Ht.
  { intros ru Hru. by apply (Hrules ru Hru). }
  assert (∀ c a b, Rule2 OpGt c "full_sq" ∈ removal_rules →
            field out c r = Num a → field out "full_sq" r = Num b →
            (a ≤ b)%Qc) as Hsq.
  { intros c a b Hru Ha Hb. specialize (Ht _ Hru).
    cbn [rule_test py_cmp] in Ht. rewrite Ha, Hb in Ht.
    by apply py_lt_false in Ht. }
  assert (∀ c x, Rule1 OpLt c (num 0) ∈ removal_rules →
            field out c r = Num x → (zq 0 ≤ x)%Qc) as Hneg.
  { intros c x Hru Hx. specialize (Ht _ Hru).
    cbn [rule_test py_cmp] in Ht. rewrite Hx in Ht.
    by apply py_lt_false in Ht. }
  assert (∀ c x, Rule1 OpEq c (num x) ∈ removal_rules →
            field out c r ≠ num x) as Hne.
  { intros c x Hru. specialize (Ht _ Hru). cbn [rule_test py_cmp] in Ht.
    apply py_eq_false_ne. congruence. }
  assert (∀ y, field out "build_year" r = Num y →
            (zq 1691 < y)%Qc ∧ (y ≤ zq 2018)%Qc) as Hyear.
  { intros y Hy. split.
    - pose proof (Ht (Rule1 OpLe "build_year" (num 1691)) ltac:(rule_in))
        as Hle. cbn [rule_test py_cmp] in Hle.
      rewrite Hy in Hle. by apply py_le_false in Hle.
    - pose proof (Ht (Rule1 OpGt "build_year" (num 2018)) ltac:(rule_in))
        as Hgt. cbn [rule_test py_cmp] in Hgt.
      rewrite Hy in Hgt. by apply py_lt_false in Hgt. }
  split; [intros a b; apply Hsq; rule_in |].
  split; [intros a b; apply Hsq; rule_in |].
  split.
  { intros a b Ha Hb.
    pose proof (Ht (Rule2 OpGt "floor" "max_floor") ltac:(rule_in)) as Hfl.
    cbn [rule_test py_cmp] in Hfl.
    rewrite Ha, Hb in Hfl. by apply py_lt_false in Hfl. }
  split; [done |].
  split; [repeat split; apply Hne; rule_in |].
  split.
  { split; [apply Hne; rule_in |]. intros m Hm.
    pose proof (Ht (Rule1 OpGt "max_floor" (num 57)) ltac:(rule_in)) as Hmf.
    cbn [rule_test py_cmp] in Hmf. rewrite Hm in Hmf.
    by apply py_lt_false in Hmf. }
  do 4 (split; [intros x; apply Hneg; rule_in |]).
  split.
  { intros Hby. destruct (Hyear _ Hby) as [_ Hle]. by vm_compute in Hle. }
  intros Hmode H33. apply Hmode. by eapply handle_bad_data_state.
Qed.

Lemma repair_state_eq df js :
  col_pos "state" (columns df) = Some js →
  repair_state df
  = m ← stats_mode (column_at js df);
    Ok (mkDF (schema df) (set_where js (num 33) m <$> rows df)).
Proof.
  intros Hjs. unfold repair_state.
  rewrite (getitem_Ok _ _ _ Hjs) at 1. cbn [mbind result_bind].
  destruct (stats_mode (column_at js df)) as [m|e]; [|done].
  cbn [mbind result_bind]. by apply loc_set_eq.
Qed.

Lemma repair_build_year_eq df jb :
  col_pos "build_year" (columns df) = Some jb →
  repair_build_year df
  = Ok (mkDF (schema df) (set_where jb (num 20052009) (num 2007) <$> rows df)).
Proof. intros Hjb. unfold repair_build_year. by apply loc_set_eq. Qed.

(** C6.  The Rule-Based Filter is idempotent: applied to a table it has
    returned, it returns that table, rows and cells unchanged. *)
Theorem handle_bad_data_idempotent df out :
  handle_bad_data df = Ok out → handle_bad_data out = Ok out.
Proof.
  intros H. pose proof (handle_bad_data_rules df out H) as Hrules.
  rewrite handle_bad_data_unfold, (removals_id _ _ Hrules).
  cbn [mbind result_bind].
  destruct (handle_bad_data_inv df out H)
    as (dfK & js & m & HK & Hjs & Hm & Hout).
  assert (col_pos "state" (columns out) = Some js) as Hjs'.
  { by rewrite Hout, columns_mk. }
  destruct (stats_mode_Ok _ _ Hm) as (Hne & Hstr & q & ->).
  (* the repair of the state finds nothing to change *)
  assert (∃ q', stats_mode (column_at js out) = Ok (Num q') ∧
                set_where js (num 33) (Num q') <$> rows out = rows out)
    as (q' & Hm' & Hid).
  { destruct (decide (Num q = num 33)) as [Heq|Hneq].
    - exists q. rewrite Heq in *.
      assert (rows out = rows dfK) as Hrows.
      { rewrite Hout, rows_mk. apply fmap_id_on. intros; apply set_where_id. }
      unfold column_at. rewrite Hrows. split; [done |].
      apply fmap_id_on. intros; apply set_where_id.
    - assert (∀ r, r ∈ rows out → py_eq (cell_at js r) (num 33) = false)
        as Hno.
      { rewrite Hout, rows_mk. intros r (r0 & -> & _)%list_elem_of_fmap.
        rewrite set_where_same.
        destruct (py_eq (cell_at js r0) (num 33)) eqn:Heq; [|done].
        destruct (py_eq (Num q) (num 33)) eqn:Heq'; [|done].
        by apply py_eq_true in Heq'. }
      destruct (stats_mode_returns (column_at js out)) as [q' Hq'].
      + intros Hnil. apply Hne. apply (f_equal length) in Hnil.
        rewrite column_at_length, Hout, rows_mk, length_fmap in Hnil.
        apply length_zero_iff_nil. by rewrite column_at_length.
      + unfold column_at. rewrite Hout, rows_mk, <-list_fmap_compose.
        apply Forall_fmap, Forall_forall. intros r0 Hr0 s. simpl.
        rewrite set_where_same. destruct (py_eq _ _); [done |].
        rewrite Forall_forall in Hstr. apply Hstr.
        by apply list_elem_of_fmap_2.
      + exists q'. split; [done |]. apply fmap_id_on.
        intros r Hr. by apply set_where_no, Hno. }
  rewrite (repair_state_eq _ _ Hjs'), Hm'. cbn [mbind result_bind].
  rewrite Hid, DataFrame_eta.
  (* nor does the repair of the build year *)
  destruct (Hrules (Rule1 OpGt "build_year" (num 2018))) as [Hc Hrule];
    [rule_in |].
  destruct (col_pos_elem_of "build_year" (columns out)) as [jb Hjb];
    [apply Hc; apply list_elem_of_here |].
  rewrite (repair_build_year_eq _ _ Hjb).
  rewrite (build_year_repair_id out jb Hjb Hrule). by rewrite DataFrame_eta.
Qed.

(** ** The properties on the example frames *)

(** C4 (the claim as stated fails).  The timestamp is the first column
    of the example and the last column of the imputed frame, and the row
    labels 10, 20, 30 have become 0, 1, 2. *)
Lemma impute_missing_values_data_moves_timestamp :
  impute_missing_values_data ex_transactions = Ok ex_transactions_imputed ∧
  columns ex_transactions = ["timestamp"; "full_sq"; "life_sq"] ∧
  columns ex_transactions_imputed = ["full_sq"; "life_sq"; "timestamp"] ∧
  columns ex_transactions_imputed ≠ columns ex_transactions ∧
  index ex_transactions = [num 10; num 20; num 30] ∧
  index ex_transactions_imputed = [num 0; num 1; num 2] ∧
  index ex_transactions_imputed ≠ index ex_transactions.
Proof.
  split; [vm_compute; reflexivity |]. do 3 (split; [done |]).
  do 2 (split; [vm_compute; reflexivity |]). by_decide.
Qed.

Lemma impute_missing_values_data_frame_witness :
  impute_missing_values_data ex_transactions = Ok ex_transactions_imputed ∧
  columns ex_transactions_imputed
    = filter (λ c, c ≠ "timestamp") (columns ex_transactions) ++ ["timestamp"] ∧
  length (rows ex_transactions_imputed) = length (rows ex_transactions) ∧
  field ex_transactions_imputed "timestamp" <$> rows ex_transactions_imputed
    = field ex_transactions "timestamp" <$> rows ex_transactions.
Proof.
  split; [vm_compute; reflexivity |].
  apply (impute_missing_values_data_frame ex_transactions).
  vm_compute; reflexivity.
Defined.

Lemma imputer_leaves_no_missing_value_witness :
  (rectangular ex_transactions ∧
   impute_missing_values_data ex_transactions = Ok ex_transactions_imputed ∧
   imputed_data ex_transactions ex_transactions_imputed) ∧
  (rectangular ex_macro ∧
   impute_missing_values_macro ex_macro = Ok ex_macro_imputed ∧
   imputed_macro ex_macro ex_macro_imputed).
Proof.
  assert (rectangular ex_transactions) as H1 by (by repeat constructor).
  assert (rectangular ex_macro) as H2 by (by repeat constructor).
  assert (impute_missing_values_data ex_transactions
          = Ok ex_transactions_imputed) as H3 by (vm_compute; reflexivity).
  assert (impute_missing_values_macro ex_macro = Ok ex_macro_imputed) as H4
    by (vm_compute; reflexivity).
  split; (split; [done |]; split; [done |]).
  - exact (proj1 (imputer_leaves_no_missing_value
                    ex_transactions ex_transactions_imputed H1) H3).
  - exact (proj2 (imputer_leaves_no_missing_value
                    ex_macro ex_macro_imputed H2) H4).
Defined.

Lemma handle_bad_data_idempotent_witness :
  handle_bad_data ex_survey = Ok ex_survey_filtered ∧
  handle_bad_data ex_survey_filtered = Ok ex_survey_filtered.
Proof.
  assert (handle_bad_data ex_survey = Ok ex_survey_filtered) as H
    by (vm_compute; reflexivity).
  split; [done |]. exact (handle_bad_data_idempotent ex_survey _ H).
Defined.

(** C7 (the claim as stated fails).  The filter returns the example
    frame as it is: a row with state 33, a row with max_floor -1 and a
    row whose life_sq is missing are rows of its result. *)
Lemma handle_bad_data_keeps_rows :
  handle_bad_data ex_kept = Ok ex_kept ∧
  field ex_kept "state" <$> rows ex_kept = [num 33; num 33; num 2] ∧
  field ex_kept "max_floor" <$> rows ex_kept = [num 9; num (-1); num 9] ∧
  field ex_kept "life_sq" <$> rows ex_kept = [num 30; num 30; NaN] ∧
  ¬ (∀ r, r ∈ rows ex_kept → field ex_kept "state" r ≠ num 33) ∧
  ¬ (∀ r, r ∈ rows ex_kept →
          ∃ m, field ex_kept "max_floor" r = Num m ∧ (zq 0 < m)%Qc) ∧
  ¬ (∀ r, r ∈ rows ex_kept →
          ∃ a b, field ex_kept "life_sq" r = Num a ∧
                 field ex_kept "full_sq" r = Num b ∧ (a ≤ b)%Qc).
Proof.
  split; [vm_compute; reflexivity |]. do 3 (split; [done |]).
  split; [|split].
  - intros H. apply (H (num 0, num <$> [50; 30; 5; 2; 9; 2000; 33; 1; 1; 1; 1]));
      [apply list_elem_of_here | done].
  - intros H.
    destruct (H (num 1, num <$> [50; 30; 5; -2; -1; 2000; 33; 1; 1; 1; 1]))
      as (m & Hm & Hlt); [apply list_elem_of_further, list_elem_of_here |].
    vm_compute in Hm. injection Hm as <-. by vm_compute in Hlt.
  - intros H.
    destruct (H (num 2, [num 50; NaN; num 5; num 2; num 9; num 2000; num 2;
                         num 1; num 1; num 1; num 1]))
      as (a & b & Ha & _);
      [do 2 apply list_elem_of_further; apply list_elem_of_here |].
    by vm_compute in Ha.
Qed.

Lemma handle_bad_data_invariants_witness :
  handle_bad_data ex_survey = Ok ex_survey_filtered ∧
  (num 1, num <$> [50; 30; 5; 2; 9; 2000; 2; 1; 1; 1; 1])
    ∈ rows ex_survey_filtered ∧
  filtered_row ex_survey_filtered
    (num 1, num <$> [50; 30; 5; 2; 9; 2000; 2; 1; 1; 1; 1]).
Proof.
  assert (handle_bad_data ex_survey = Ok ex_survey_filtered) as H
    by (vm_compute; reflexivity).
  assert ((num 1, num <$> [50; 30; 5; 2; 9; 2000; 2; 1; 1; 1; 1])
            ∈ rows ex_survey_filtered) as Hr by apply list_elem_of_here.
  split; [done |]. split; [done |].
  exact (handle_bad_data_invariants ex_survey _ _ H Hr).
Defined.

Lemma convert_categorical_to_numerical_spec_witness :
  rectangular ex_categorical ∧
  ∃ out, convert_categorical_to_numerical ex_py_str_num ex_categorical = Ok out ∧
         encoder_result ex_py_str_num ex_categorical out.
Proof.
  assert (rectangular ex_categorical) as H by (by repeat constructor).
  split; [done |].
  exact (convert_categorical_to_numerical_spec ex_py_str_num ex_categorical H).
Defined.

(** The encoder on the example: Arbat, Mitino and the missing value are
    coded 0, 1, 2; the timestamp and the numeric column are as before. *)
Example convert_categorical_to_numerical_ex :
  (values <$> convert_categorical_to_numerical ex_py_str_num ex_categorical)
  = Ok [ [num 1; Str "2011-08-20"; num 50];
         [num 0; Str "2011-08-21"; num 60];
         [num 2; Str "2011-08-22"; num 70];
         [num 1; Str "2011-08-23"; num 80] ].
Proof. vm_compute. reflexivity. Qed.

Lemma merge_left_spec_witness :
  "timestamp" ∈ columns ex_transactions_imputed ∧
  NoDup (index ex_macro_imputed) ∧
  ∃ out,
    merge_left ex_transactions_imputed ex_macro_imputed "timestamp" = Ok out ∧
    length (rows out) = length (rows ex_transactions_imputed) ∧
    index out = index ex_transactions_imputed ∧
    length (columns out)
    = (length (columns ex_transactions_imputed)
       + length (columns ex_macro_imputed))%nat ∧
    ∀ i r, rows ex_transactions_imputed !! i = Some r →
      (∀ m, m ∈ rows ex_macro_imputed →
            m.1 = field ex_transactions_imputed "timestamp" r →
            rows out !! i = Some (r.1, r.2 ++ m.2)) ∧
      ((∀ m, m ∈ rows ex_macro_imputed →
             m.1 ≠ field ex_transactions_imputed "timestamp" r) →
       rows out !! i
       = Some (r.1, r.2 ++ replicate (length (columns ex_macro_imputed)) NaN)).
Proof.
  assert ("timestamp" ∈ columns ex_transactions_imputed) as H1 by by_decide.
  assert (NoDup (index ex_macro_imputed)) as H2 by by_decide.
  split; [done |]. split; [done |].
  exact (merge_left_spec ex_transactions_imputed ex_macro_imputed H1 H2).
Defined.

(** The join on the example: the first two transactions find their date
    among the macro keys, the third does not. *)
Example merge_left_ex :
  (values <$> merge_left ex_transactions_imputed ex_macro "timestamp")
  = Ok [ [num 50; num 30; Str "2011-08-20"; num 7; num 100];
         [num 60; num 35; Str "2011-08-21"; NaN; num 102];
         [num 70; num 40; Str "2011-09-01"; NaN; NaN] ].
Proof. by_decide. Qed.

(** * Further properties of the script *)

(** ** The script as a whole (lines 162-175) *)

(** X1.  Whatever the five loaded tables and the file store are, the
    script ends with an exception and leaves the file store as it found
    it: no output file is ever written. *)
Theorem main_never_writes py df_train df_test df_train_lat_lon
    df_test_lat_lon df_macro fs :
  ∃ e, main py df_train df_test df_train_lat_lon df_test_lat_lon df_macro fs
       = (fs, Some e).
Proof.
  unfold main.
  destruct (clean_data py df_train df_train_lat_lon) as [tr|e]; [|by eexists].
  destruct (clean_data py df_test df_test_lat_lon) as [te|e]; [|by eexists].
  unfold clean_macro. rewrite call_unbound. by eexists.
Qed.

(** ** The transaction pipeline (lines 121-128) *)

Lemma bind_Ok_r {A} (m : result A) : (x ← m; Ok x) = m.
Proof. by destruct m. Qed.

(** X2.  The transaction pipeline is the geo correction followed by the
    encoder, the data-table imputer and the filter: its truncation step
    hands every table on unchanged, and its exceptions are theirs. *)
Theorem clean_data_stages py df ref_df :
  clean_data py df ref_df
  = df1 ← correct_lon_lat df ref_df;
    df2 ← convert_categorical_to_numerical py df1;
    df3 ← impute_missing_values_data df2;
    handle_bad_data df3.
Proof.
  unfold clean_data.
  destruct (correct_lon_lat df ref_df) as [df1|e]; [|done].
  cbn [mbind result_bind].
  change (call py "truncate_extreme_values" df1)
    with (truncate_extreme_values df1).
  rewrite truncate_extreme_values_id. cbn [mbind result_bind].
  change (call py "convert_categorical_to_numerical" df1)
    with (convert_categorical_to_numerical py df1).
  destruct (convert_categorical_to_numerical py df1) as [df2|e]; [|done].
  cbn [mbind result_bind].
  change (call py "impute_missing_values_data" df2)
    with (impute_missing_values_data df2).
  destruct (impute_missing_values_data df2) as [df3|e]; [|done].
  cbn [mbind result_bind].
  change (call py "handle_bad_data" df3) with (handle_bad_data df3).
  apply bind_Ok_r.
Qed.

(** ** Writer (lines 165-167) *)

(** X3.  The three writes leave the cleaned train table at the train
    path and touch no path other than the train path and the test path:
    they produce two files, not three. *)
Theorem write_cleaned_two_files df_train_clean df_test_clean df_macro_clean fs :
  write_cleaned df_train_clean df_test_clean df_macro_clean fs
    !! TRAIN_OUT_PATH
  = Some (columns df_train_clean, values df_train_clean) ∧
  (∀ path, path ≠ TRAIN_OUT_PATH → path ≠ TEST_OUT_PATH →
     write_cleaned df_train_clean df_test_clean df_macro_clean fs !! path
     = fs !! path) ∧
  dom (write_cleaned df_train_clean df_test_clean df_macro_clean fs)
  = {[TRAIN_OUT_PATH; TEST_OUT_PATH]} ∪ dom fs.
Proof.
  split; [apply write_cleaned_train |]. split.
  - intros path H1 H2. unfold write_cleaned, to_csv.
    rewrite !lookup_insert_ne; done.
  - unfold write_cleaned, to_csv. rewrite !dom_insert_L.
    apply set_eq. intros path.
    rewrite !elem_of_union, !elem_of_singleton.
    unfold MACRO_OUT_PATH, TEST_OUT_PATH. tauto.
Qed.

(** ** Rule-Based Filter: what it keeps and what it needs *)

Lemma removals_sublist rules : ∀ df df',
  foldR apply_rule rules df = Ok df' → rows df' `sublist_of` rows df.
Proof.
  induction rules as [|ru rules IH]; intros df df' H; simpl in H.
  - by simplify_eq.
  - apply bind_Ok in H as (df1 & H1 & H).
    apply apply_rule_inv in H1 as (_ & mask & _ & ->).
    etrans; [by apply IH |]. apply sublist_filter.
Qed.

Lemma set_where_fst j x v (r : row) : (set_where j x v r).1 = r.1.
Proof. unfold set_where. by destruct (py_eq _ _). Qed.

Lemma field_columns df df' c r :
  columns df' = columns df → field df' c r = field df c r.
Proof. intros H. unfold field. by rewrite H. Qed.

(** X4.  When the filter returns, the result has the schema of the
    argument; its row labels are labels of the argument, in the same
    order; and every row of the result is a row of the argument in which
    at most the state cell has changed: no other cell is ever rewritten,
    the build year included. *)
Theorem handle_bad_data_frame df out :
  handle_bad_data df = Ok out →
  schema out = schema df ∧
  index out `sublist_of` index df ∧
  ∀ r', r' ∈ rows out →
    ∃ r, r ∈ rows df ∧ r'.1 = r.1 ∧
         ∀ c, c ≠ "state" → field out c r' = field df c r.
Proof.
  intros (dfK & js & m & HK & Hjs & Hm & ->)%handle_bad_data_inv.
  destruct (removals_rows _ _ _ HK) as (Hs & Hsub & _).
  pose proof (removals_sublist _ _ _ HK) as Hsl.
  split; [done |]. split.
  - unfold index. rewrite rows_mk, <-list_fmap_compose.
    assert (fst ∘ set_where js (num 33) m <$> rows dfK = (rows dfK).*1)
      as -> by (apply list_fmap_ext; intros i r _; apply set_where_fst).
    by apply fmap_sublist.
  - rewrite rows_mk. intros r' (r & -> & Hr)%list_elem_of_fmap.
    exists r. split; [by apply Hsub |]. split; [apply set_where_fst |].
    intros c Hc. rewrite (field_columns dfK) by done.
    rewrite (field_set_where dfK c js _ _ r "state" Hjs Hc).
    apply field_columns. by apply columns_schema.
Qed.

Lemma rule_columns_filter_columns ru :
  ru ∈ removal_rules → rule_columns ru ⊆ filter_columns.
Proof.
  revert ru. apply Forall_forall. unfold removal_rules.
  repeat (apply Forall_cons; split; [by_decide |]). constructor.
Qed.

(** X5.  The filter returns only on tables that have every column it
    reads: life_sq, full_sq, kitch_sq, build_year, max_floor, floor, the
    four school counts and state. *)
Theorem handle_bad_data_needs_columns df out :
  handle_bad_data df = Ok out → filter_columns ⊆ columns df.
Proof.
  intros (dfK & js & m & HK & Hjs & Hm & ->)%handle_bad_data_inv.
  destruct (removals_rows _ _ _ HK) as (Hs & _ & Hrules).
  assert (∀ ru c, ru ∈ removal_rules → c ∈ rule_columns ru → c ∈ columns df)
    as Hc.
  { intros ru c Hru Hin. by apply (Hrules ru Hru). }
  intros c Hin. unfold filter_columns in Hin.
  repeat (apply elem_of_cons in Hin as [->|Hin]);
    [ apply (Hc (Rule2 OpGt "life_sq" "full_sq")); [rule_in |]
    | apply (Hc (Rule2 OpGt "life_sq" "full_sq")); [rule_in |]
    | apply (Hc (Rule2 OpGt "kitch_sq" "full_sq")); [rule_in |]
    | apply (Hc (Rule1 OpLe "build_year" (num 1691))); [rule_in |]
    | apply (Hc (Rule1 OpGt "max_floor" (num 57))); [rule_in |]
    | apply (Hc (Rule2 OpGt "floor" "max_floor")); [rule_in |]
    | apply (Hc (Rule1 OpLt "children_preschool" (num 0))); [rule_in |]
    | apply (Hc (Rule1 OpLt "preschool_quota" (num 0))); [rule_in |]
    | apply (Hc (Rule1 OpLt "children_school" (num 0))); [rule_in |]
    | apply (Hc (Rule1 OpLt "school_quota" (num 0))); [rule_in |]
    | | by apply elem_of_nil in Hin ];
    try (simpl; by_decide).
  rewrite <-(columns_schema _ _ Hs). apply col_pos_None_not. congruence.
Qed.

(** X6.  The filter never returns a table without rows: the mode of an
    empty state column does not exist. *)
Theorem handle_bad_data_nonempty df out :
  handle_bad_data df = Ok out → rows out ≠ [] ∧ rows df ≠ [].
Proof.
  intros (dfK & js & m & HK & Hjs & Hm & ->)%handle_bad_data_inv.
  destruct (stats_mode_Ok _ _ Hm) as (Hne & _).
  assert (rows dfK ≠ []) as HneK.
  { intros Hnil. apply Hne. unfold column_at. by rewrite Hnil. }
  split.
  - rewrite rows_mk. intros Hnil%fmap_nil_inv. done.
  - intros Hnil. pose proof (removals_sublist _ _ _ HK) as Hsl.
    rewrite Hnil in Hsl. apply sublist_nil_r in Hsl. done.
Qed.

(** X7.  On a table without rows that has the columns the filter reads,
    the filter raises [IndexError]. *)
Theorem handle_bad_data_empty df :
  rows df = [] → filter_columns ⊆ columns df →
  handle_bad_data df = Raise IndexError.
Proof.
  intros Hnil Hcols. rewrite handle_bad_data_unfold.
  rewrite removals_id.
  - cbn [mbind result_bind].
    destruct (col_pos_elem_of "state" (columns df)) as [js Hjs].
    { apply Hcols. unfold filter_columns. by_decide. }
    rewrite (repair_state_eq _ _ Hjs). unfold column_at. by rewrite Hnil.
  - intros ru Hru. split.
    + etrans; [by apply rule_columns_filter_columns | done].
    + rewrite Hnil. by intros r ?%elem_of_nil.
Qed.

(** A label that a removal step drops is the label of no row later. *)
Lemma removals_labels rules : ∀ df df',
  foldR apply_rule rules df = Ok df' →
  ∀ ru r, ru ∈ rules → r ∈ rows df → rule_test df ru r = Ok true →
          r.1 ∉ index df'.
Proof.
  induction rules as [|ru0 rules IH]; intros df df' H ru r Hru Hr Ht.
  { by apply elem_of_nil in Hru. }
  simpl in H. apply bind_Ok in H as (df1 & H1 & H).
  pose proof (removals_rows _ _ _ H) as (Hs & Hsub & _).
  pose proof H1 as H1'.
  apply apply_rule_inv in H1 as (_ & mask & Hmask & Hdf1).
  assert (∀ l, l ∉ index df1 → l ∉ index df') as Hgone.
  { intros l Hl (r' & -> & Hr')%list_elem_of_fmap. apply Hl.
    apply list_elem_of_fmap. exists r'. split; [done | by apply Hsub]. }
  assert (∀ l, l ∈ masked_index df mask → l ∉ index df1) as Hdrop.
  { intros l Hl (r' & -> & Hr')%list_elem_of_fmap.
    rewrite Hdf1 in Hr'. simpl in Hr'.
    by apply list_elem_of_filter in Hr' as [? _]. }
  destruct (decide (r ∈ rows df1)) as [Hin|Hout].
  - apply elem_of_cons in Hru as [->|Hru].
    + apply apply_rule_rows in H1' as (_ & _ & Hno).
      destruct (Hno r Hin) as [_ Hf]. congruence.
    + apply (IH df1 df' H ru r Hru Hin).
      rewrite (rule_test_columns df df1); [done |].
      apply columns_schema. by rewrite Hdf1.
  - apply Hgone, Hdrop.
    destruct (decide (r.1 ∈ masked_index df mask)) as [|Hn]; [done |].
    destruct Hout. rewrite Hdf1. simpl. by apply list_elem_of_filter.
Qed.

(** X8.  Rows are removed by label: when a row of the argument matches
    one of the removal rules, no row of the result carries its label,
    neither the row itself nor another row that shares the label. *)
Theorem handle_bad_data_removes_label df out ru r :
  handle_bad_data df = Ok out →
  ru ∈ removal_rules → r ∈ rows df → rule_test df ru r = Ok true →
  r.1 ∉ index out.
Proof.
  intros (dfK & js & m & HK & Hjs & Hm & ->)%handle_bad_data_inv Hru Hr Ht.
  pose proof (removals_labels _ _ _ HK ru r Hru Hr Ht) as Hl.
  intros (r' & Heq & (r0 & -> & Hr0)%list_elem_of_fmap)%list_elem_of_fmap.
  rewrite set_where_fst in Heq. apply Hl. rewrite Heq.
  by apply list_elem_of_fmap_2.
Qed.

(** ** Categorical Encoder: a second run *)

(** Two rectangular frames with the same schema, the same row labels and
    the same columns are the same frame. *)
Lemma DataFrame_ext a b :
  schema a = schema b → index a = index b →
  rectangular a → rectangular b →
  (∀ j, (j < length (schema a))%nat → column_at j a = column_at j b) →
  a = b.
Proof.
  intros Hs Hi Ha Hb Hc. rewrite <-(DataFrame_eta a), <-(DataFrame_eta b).
  rewrite Hs. f_equal. apply list_eq. intros i.
  assert (rows a !! i = None ↔ rows b !! i = None) as Hnone.
  { rewrite !lookup_ge_None. apply (f_equal length) in Hi.
    unfold index in Hi. rewrite !length_fmap in Hi. by rewrite Hi. }
  destruct (rows a !! i) as [[l x]|] eqn:Hra;
    destruct (rows b !! i) as [[l' y]|] eqn:Hrb;
    [| by destruct (proj2 Hnone eq_refl) | by destruct (proj1 Hnone eq_refl)
     | done].
  f_equal. f_equal.
  - apply (f_equal (λ ls, ls !! i)) in Hi. unfold index in Hi.
    rewrite !list_lookup_fmap, Hra, Hrb in Hi. by simplify_eq/=.
  - unfold rectangular in Ha, Hb. rewrite Forall_forall in Ha, Hb.
    pose proof (Ha _ (list_elem_of_lookup_2 _ _ _ Hra)) as Hx.
    pose proof (Hb _ (list_elem_of_lookup_2 _ _ _ Hrb)) as Hy.
    simpl in Hx, Hy. apply list_eq. intros j.
    destruct (decide (j < length (schema a))%nat) as [Hj|Hj].
    + specialize (Hc j Hj). apply (f_equal (λ cs, cs !! i)) in Hc.
      unfold column_at in Hc. rewrite !list_lookup_fmap, Hra, Hrb in Hc.
      unfold cell_at in Hc. simpl in Hc.
      destruct (lookup_lt_is_Some_2 x j) as [c Hxc]; [lia |].
      destruct (lookup_lt_is_Some_2 y j) as [c' Hyc]; [rewrite <-Hs in Hy; lia |].
      rewrite Hxc, Hyc in *. by simplify_eq/=.
    + rewrite (proj2 (lookup_ge_None x j)) by lia.
      rewrite (proj2 (lookup_ge_None y j)); [done |]. rewrite <-Hs in Hy. lia.
Qed.

(** X9.  The encoder is idempotent on rectangular frames: what it
    returns has no object column left to encode but the timestamp, and a
    second run returns it unchanged. *)
Theorem convert_categorical_to_numerical_idempotent py df out :
  rectangular df →
  convert_categorical_to_numerical py df = Ok out →
  convert_categorical_to_numerical py out = Ok out.
Proof.
  intros Hrect Hout.
  destruct (encode_loop_Ok py (columns df) df)
    as (out' & Hout' & Hcols & Hidx & Hrect' & H1); [done | done |].
  unfold convert_categorical_to_numerical in Hout.
  rewrite Hout in Hout'. injection Hout' as <-.
  destruct (encode_loop_Ok py (columns out) out)
    as (out2 & Hout2 & Hcols2 & Hidx2 & Hrect2 & H2); [done | done |].
  unfold convert_categorical_to_numerical. rewrite Hout2. f_equal.
  (* no column of [out] is one the encoder rewrites *)
  assert (∀ j g dt, schema out !! j = Some (g, dt) →
            ¬ encoded_column out j g dt) as Hno.
  { intros j g dt Hs (Hpos & -> & Hts).
    assert (columns df !! j = Some g) as Hg.
    { rewrite <-Hcols. by apply schema_dtype in Hs as [? _]. }
    unfold columns in Hg. rewrite list_lookup_fmap in Hg.
    destruct (schema df !! j) as [[g' dt']|] eqn:Hsd; simplify_eq/=.
    specialize (H1 j g dt' Hsd).
    destruct (decide (g ∈ columns df ∧ encoded_column df j g dt'))
      as [_|Hn].
    - destruct H1 as [_ H1]. congruence.
    - destruct H1 as [_ H1]. assert (dt' = Object) as -> by congruence.
      apply Hn. split.
      + eapply list_elem_of_lookup_2. unfold columns.
        by rewrite list_lookup_fmap, Hsd.
      + split; [by rewrite <-Hcols | done]. }
  assert (∀ j g dt, schema out !! j = Some (g, dt) →
            column_at j out2 = column_at j out ∧
            schema out2 !! j = Some (g, dt)) as Hsame.
  { intros j g dt Hs. specialize (H2 j g dt Hs).
    rewrite decide_False in H2; [done |]. intros [_ ?]. by eapply Hno. }
  assert (length (schema out2) = length (schema out)) as Hlen.
  { by rewrite <-!columns_length, Hcols2. }
  apply DataFrame_ext; [| done | done | done |].
  - apply list_eq. intros j.
    destruct (schema out !! j) as [[g dt]|] eqn:Hs.
    + by apply Hsame in Hs as [_ ?].
    + apply lookup_ge_None. apply lookup_ge_None in Hs. lia.
  - intros j Hj. rewrite Hlen in Hj.
    destruct (lookup_lt_is_Some_2 _ _ Hj) as [[g dt] Hs].
    by apply Hsame in Hs as [? _].
Qed.

(** ** Geo Corrector (lines 16-20) *)

Lemma lookup_label_elem k v (kvs : list (cell * cell)) :
  NoDup kvs.*1 → (k, v) ∈ kvs → lookup_label k kvs = v.
Proof.
  induction kvs as [|[k' v'] kvs IH]; intros Hnd Hin;
    [by apply elem_of_nil in Hin |].
  apply NoDup_cons in Hnd as [Hk' Hnd]. simpl.
  apply elem_of_cons in Hin as [[= -> ->]|Hin].
  - by rewrite decide_True.
  - rewrite decide_False; [by apply IH |].
    intros ->. apply Hk'. apply list_elem_of_fmap. by exists (k, v).
Qed.

Lemma lookup_label_none k (kvs : list (cell * cell)) :
  k ∉ kvs.*1 → lookup_label k kvs = NaN.
Proof.
  induction kvs as [|[k' v'] kvs IH]; intros Hk; [done |]. simpl.
  apply not_elem_of_cons in Hk as [Hne Hk].
  rewrite decide_False by done. by apply IH.
Qed.

Lemma lookup_label_perm k (kvs kvs' : list (cell * cell)) :
  NoDup kvs.*1 → kvs' ≡ₚ kvs → lookup_label k kvs' = lookup_label k kvs.
Proof.
  intros Hnd Hp.
  assert (NoDup kvs'.*1) as Hnd' by (by rewrite Hp).
  destruct (decide (k ∈ kvs.*1)) as [Hin|Hout].
  - apply list_elem_of_fmap in Hin as ([k' v] & -> & Hin). simpl.
    rewrite (lookup_label_elem k' v kvs) by done.
    apply lookup_label_elem; [done | by rewrite Hp].
  - rewrite (lookup_label_none k kvs) by done.
    apply lookup_label_none. by rewrite Hp.
Qed.

Lemma keyed_fst ref j : (keyed ref j).*1 = index ref.
Proof. unfold keyed, index. by rewrite <-list_fmap_compose. Qed.

(** With distinct labels in [ref], the assignment is the assignment of
    the values looked up by label, whether or not the indexes agree. *)
Lemma setitem_series_eq df ref name j dt :
  rows df ≠ [] → NoDup (index ref) →
  col_pos name (columns ref) = Some j → schema ref !! j = Some (name, dt) →
  setitem_series df ref name
  = setitem df name dt ((λ l, lookup_label l (keyed ref j)) <$> index df).
Proof.
  intros Hne Hnd Hj Hdt. unfold setitem_series.
  rewrite (getitem_Ok _ _ _ Hj), (dtype_of_Ok _ _ _ _ Hj Hdt).
  cbn [mbind result_bind].
  rewrite decide_False by (by intros [? _]).
  assert (zip (index ref) (column_at j ref) = keyed ref j) as Hzip.
  { unfold index, column_at, keyed. apply zip_fmap_self. }
  destruct (decide (index ref = index df)) as [Heq|Hneq].
  - f_equal. rewrite <-Heq. unfold column_at, index.
    rewrite <-list_fmap_compose. apply list_fmap_ext. intros i m Hm. simpl.
    symmetry. apply lookup_label_elem; [by rewrite keyed_fst |].
    apply list_elem_of_fmap. exists m.
    split; [done | by eapply list_elem_of_lookup_2].
  - rewrite decide_True by done. by rewrite Hzip.
Qed.

Lemma setitem_rows_length df name dt vals out :
  setitem df name dt vals = Ok out → length (rows out) = length (rows df).
Proof.
  unfold setitem. case_decide as Hlen; [|done].
  destruct (col_pos name (columns df)); intros [= <-];
    rewrite rows_mk, length_zip_with; lia.
Qed.

(** X10.  The geo correction does not depend on the order of the rows of
    the reference table, as long as its labels are distinct: sorting the
    reference table beforehand changes nothing. *)
Theorem correct_lon_lat_ref_order df ref_df ref_df' :
  rows df ≠ [] → NoDup (index ref_df) →
  schema ref_df' = schema ref_df → rows ref_df' ≡ₚ rows ref_df →
  correct_lon_lat df ref_df' = correct_lon_lat df ref_df.
Proof.
  intros Hne Hnd Hsch Hperm.
  assert (NoDup (index ref_df')) as Hnd' by (unfold index; by rewrite Hperm).
  assert (∀ d name, rows d ≠ [] →
            setitem_series d ref_df' name = setitem_series d ref_df name)
    as Hstep.
  { intros d name Hd.
    destruct (col_pos name (columns ref_df)) as [j|] eqn:Hj.
    - destruct (col_pos_schema _ _ _ Hj) as [dt Hdt].
      rewrite (setitem_series_eq d ref_df name j dt) by done.
      rewrite (setitem_series_eq d ref_df' name j dt); try done.
      + f_equal. apply list_fmap_ext. intros i l _.
        apply lookup_label_perm; [by rewrite keyed_fst |].
        unfold keyed. by rewrite Hperm.
      + unfold columns. by rewrite Hsch.
      + by rewrite Hsch.
    - unfold setitem_series, getitem, get_loc.
      unfold columns in *. by rewrite Hsch, Hj. }
  unfold correct_lon_lat. rewrite Hstep by done.
  destruct (setitem_series df ref_df "lon") as [d1|e] eqn:H1; [|done].
  cbn [mbind result_bind]. rewrite Hstep; [done |].
  unfold setitem_series in H1.
  destruct (getitem ref_df "lon") as [s|]; [|done].
  destruct (dtype_of ref_df "lon") as [dt|]; [|done].
  cbn [mbind result_bind] in H1.
  rewrite decide_False in H1 by (by intros [? _]).
  assert (∀ vals, setitem df "lon" dt vals = Ok d1 → rows d1 ≠ []) as Hlen.
  { intros vals Hset Hnil. apply setitem_rows_length in Hset.
    rewrite Hnil in Hset. by destruct (rows df). }
  repeat case_decide; try done; by eapply Hlen.
Qed.

(** What a column assignment does to the cells of a rectangular frame:
    the assigned column holds the values row by row, the other columns
    of the frame are as they were. *)
Lemma setitem_fields df name dt vals out :
  rectangular df → setitem df name dt vals = Ok out →
  rectangular out ∧ index out = index df ∧
  (∀ c, c ∈ columns df → c ∈ columns out) ∧
  ∀ i r r', rows df !! i = Some r → rows out !! i = Some r' →
    vals !! i = Some (field out name r') ∧
    ∀ c, c ≠ name → c ∈ columns df → field out c r' = field df c r.
Proof.
  intros Hrect Hset. pose proof Hset as Hset'. unfold setitem in Hset'.
  case_decide as Hlen; [|done].
  destruct (col_pos name (columns df)) as [j|] eqn:Hj.
  - clear Hset'.
    destruct (setitem_existing df name dt vals j Hj Hlen Hrect)
      as (out' & Hout & Hsch & Hcols & Hidx & Hrect' & Hcol).
    rewrite Hset in Hout. injection Hout as <-.
    split; [done |]. split; [done |]. split; [by rewrite Hcols |].
    intros i r r' Hr Hr'.
    assert (∀ j', column_at j' out !! i = Some (cell_at j' r')) as Hout_i.
    { intros j'. unfold column_at. by rewrite list_lookup_fmap, Hr'. }
    assert (∀ j', column_at j' df !! i = Some (cell_at j' r)) as Hdf_i.
    { intros j'. unfold column_at. by rewrite list_lookup_fmap, Hr. }
    split.
    + rewrite (field_at out name j) by (by rewrite Hcols).
      rewrite <-Hout_i, Hcol. by rewrite decide_True.
    + intros c Hc [jc Hjc]%col_pos_elem_of.
      rewrite (field_at out c jc) by (by rewrite Hcols).
      rewrite (field_at df c jc) by done.
      pose proof (Hout_i jc) as H1. rewrite Hcol in H1.
      rewrite decide_False in H1.
      * rewrite Hdf_i in H1. by injection H1.
      * intros ->. apply Hc. by eapply col_pos_inj.
  - injection Hset' as <-.
    assert (name ∉ columns df) as Hn by (by apply col_pos_None).
    split; [|split; [|split]].
    + unfold rectangular in *. rewrite rows_mk. simpl.
      rewrite length_app. simpl. clear -Hrect Hlen. revert vals Hlen.
      induction Hrect as [|r rs Hr Hrs IH]; intros [|v vals] ?; simplify_eq/=;
        constructor; [simpl; rewrite length_app; simpl; lia | by apply IH].
    + unfold index. rewrite rows_mk.
      by rewrite (fst_zip_with_row (λ r v, r.2 ++ [v])).
    + intros c Hc. rewrite columns_mk, fmap_app. apply elem_of_app. by left.
    + intros i r r' Hr Hr'. rewrite rows_mk in Hr'.
      apply lookup_zip_with_Some in Hr' as (r0 & v & -> & Hr0 & Hv).
      simplify_eq.
      assert (length r.2 = length (columns df)) as Hw.
      { unfold rectangular in Hrect. rewrite Forall_forall in Hrect.
        rewrite columns_length. apply Hrect. by eapply list_elem_of_lookup_2. }
      split.
      * unfold field. rewrite columns_mk, fmap_app.
        rewrite col_pos_app_r by done. simpl. rewrite decide_True by done.
        simpl. unfold cell_at. simpl.
        rewrite Nat.add_0_r. fold (columns df). rewrite <-Hw.
        by rewrite list_lookup_middle.
      * intros c Hc [jc Hjc]%col_pos_elem_of.
        unfold field. rewrite columns_mk, fmap_app.
        fold (columns df). rewrite (col_pos_app_l _ _ _ _ Hjc), Hjc.
        unfold cell_at. simpl. rewrite lookup_app_l; [done |].
        rewrite Hw. by eapply col_pos_lt.
Qed.

(** One aligned assignment, cell by cell. *)
Lemma setitem_series_fields df ref name out :
  rectangular df → rows df ≠ [] → NoDup (index ref) →
  setitem_series df ref name = Ok out →
  rectangular out ∧ index out = index df ∧
  (∀ c, c ∈ columns df → c ∈ columns out) ∧
  ∀ i r r', rows df !! i = Some r → rows out !! i = Some r' →
    (∀ m, m ∈ rows ref → m.1 = r.1 → field out name r' = field ref name m) ∧
    ((∀ m, m ∈ rows ref → m.1 ≠ r.1) → field out name r' = NaN) ∧
    ∀ c, c ≠ name → c ∈ columns df → field out c r' = field df c r.
Proof.
  intros Hrect Hne Hnd Hset.
  destruct (col_pos name (columns ref)) as [j|] eqn:Hj.
  2:{ unfold setitem_series, getitem, get_loc in Hset. by rewrite Hj in Hset. }
  destruct (col_pos_schema _ _ _ Hj) as [dt Hdt].
  rewrite (setitem_series_eq df ref name j dt) in Hset by done.
  destruct (setitem_fields _ _ _ _ _ Hrect Hset) as (? & ? & ? & Hcells).
  do 3 (split; [done |]). intros i r r' Hr Hr'.
  destruct (Hcells i r r' Hr Hr') as [Hv Hother].
  rewrite list_lookup_fmap in Hv. unfold index in Hv.
  rewrite list_lookup_fmap, Hr in Hv. simpl in Hv. injection Hv as Hv.
  split; [|split; [|done]].
  - intros m Hm Hk. rewrite <-Hv, (field_at ref name j) by done.
    apply lookup_label_elem; [by rewrite keyed_fst |].
    apply list_elem_of_fmap. exists m. by rewrite Hk.
  - intros Hno. rewrite <-Hv. apply lookup_label_none.
    rewrite keyed_fst. intros (m & Hk & Hm)%list_elem_of_fmap.
    by apply (Hno m Hm).
Qed.

(** X11.  On a rectangular table with rows and a reference table with
    distinct labels, the geo correction keeps the rows and their labels;
    a row whose label is a label of the reference table gets the
    longitude and latitude of the reference row with that label, wherever
    that row stands; a row whose label the reference table does not have
    gets missing values; and no other column of the table changes. *)
Theorem correct_lon_lat_aligned df ref_df out :
  rectangular df → rows df ≠ [] → NoDup (index ref_df) →
  correct_lon_lat df ref_df = Ok out →
  index out = index df ∧
  ∀ i r r', rows df !! i = Some r → rows out !! i = Some r' →
    (∀ m, m ∈ rows ref_df → m.1 = r.1 →
          field out "lon" r' = field ref_df "lon" m ∧
          field out "lat" r' = field ref_df "lat" m) ∧
    ((∀ m, m ∈ rows ref_df → m.1 ≠ r.1) →
     field out "lon" r' = NaN ∧ field out "lat" r' = NaN) ∧
    (∀ c, c ≠ "lon" → c ≠ "lat" → c ∈ columns df →
          field out c r' = field df c r).
Proof.
  intros Hrect Hne Hnd H. unfold correct_lon_lat in H.
  apply bind_Ok in H as (d1 & H1 & H).
  apply bind_Ok in H as (d2 & H2 & H). simplify_eq.
  destruct (setitem_series_fields _ _ _ _ Hrect Hne Hnd H1)
    as (Hrect1 & Hidx1 & Hcols1 & Hc1).
  assert (rows d1 ≠ []) as Hne1.
  { intros Hnil. apply Hne. apply (f_equal length) in Hidx1.
    unfold index in Hidx1. rewrite !length_fmap, Hnil in Hidx1.
    by destruct (rows df). }
  destruct (setitem_series_fields _ _ _ _ Hrect1 Hne1 Hnd H2)
    as (Hrect2 & Hidx2 & Hcols2 & Hc2).
  split; [congruence |]. intros i r r' Hr Hr'.
  assert (∃ r1, rows d1 !! i = Some r1) as [r1 Hr1].
  { apply lookup_lt_is_Some_2. apply lookup_lt_Some in Hr.
    apply (f_equal length) in Hidx1. unfold index in Hidx1.
    rewrite !length_fmap in Hidx1. lia. }
  assert (r1.1 = r.1) as Hlab.
  { apply (f_equal (λ ls, ls !! i)) in Hidx1. unfold index in Hidx1.
    rewrite !list_lookup_fmap, Hr, Hr1 in Hidx1. by injection Hidx1. }
  destruct (Hc1 i r r1 Hr Hr1) as (Hlon & Hlon_no & Hother1).
  destruct (Hc2 i r1 r' Hr1 Hr') as (Hlat & Hlat_no & Hother2).
  assert ("lon" ∈ columns d1) as Hlon_in.
  { unfold setitem_series in H1.
    apply bind_Ok in H1 as (s & Hs & H1).
    apply bind_Ok in H1 as (dt & Hdt & H1).
    rewrite decide_False in H1 by (by intros [? _]).
    assert (∀ vals, setitem df "lon" dt vals = Ok d1 → "lon" ∈ columns d1)
      as Hin.
    { intros vals Hset. unfold setitem in Hset. case_decide; [|done].
      destruct (col_pos "lon" (columns df)) as [j|] eqn:Hj;
        injection Hset as <-; rewrite columns_mk.
      - rewrite list_fmap_insert. simpl.
        apply col_pos_Some in Hj as [Hj _].
        rewrite list_insert_id by done. by eapply list_elem_of_lookup_2.
      - rewrite fmap_app. apply elem_of_app. right. by left. }
    repeat case_decide; try done; by eapply Hin. }
  split; [|split].
  - intros m Hm Hk. split.
    + rewrite (Hother2 "lon") by done. by apply Hlon.
    + apply Hlat; [done | congruence].
  - intros Hno. split.
    + rewrite (Hother2 "lon") by done. by apply Hlon_no.
    + apply Hlat_no. intros m Hm. rewrite Hlab. by apply Hno.
  - intros c Hc1' Hc2' Hin.
    rewrite (Hother2 c) by (try done; by apply Hcols1). by apply Hother1.
Qed.

(** ** Joiner: repeated macro keys *)

(** The rows the join makes of one transaction row. *)
Lemma merge_group_spec (right : DataFrame) (k : cell) (r r' : row) :
  r' ∈ match filter (λ m : row, m.1 = k) (rows right) with
       | [] => [(r.1, r.2 ++ replicate (length (schema right)) NaN)]
       | ms => (λ m : row, (r.1, r.2 ++ m.2)) <$> ms
       end
  ↔ (∃ m, m ∈ rows right ∧ m.1 = k ∧ r' = (r.1, r.2 ++ m.2)) ∨
    ((∀ m, m ∈ rows right → m.1 ≠ k) ∧
     r' = (r.1, r.2 ++ replicate (length (schema right)) NaN)).
Proof.
  destruct (filter (λ m : row, m.1 = k) (rows right)) as [|m0 ms] eqn:Hf.
  - rewrite list_elem_of_singleton. split.
    + intros ->. right. split; [|done]. intros m Hm Hk.
      by apply (filter_nil_not_elem_of _ _ m Hf).
    + intros [(m & Hm & Hk & _) | [_ ->]]; [|done].
      by destruct (filter_nil_not_elem_of _ _ m Hf).
  - rewrite <-Hf. rewrite list_elem_of_fmap. split.
    + intros (m & -> & [Hk Hm]%list_elem_of_filter). left. eauto.
    + intros [(m & Hm & Hk & ->) | [Hno _]].
      * exists m. split; [done |]. by apply list_elem_of_filter.
      * assert (m0 ∈ filter (λ m : row, m.1 = k) (rows right)) as Hm0
          by (rewrite Hf; left).
        apply list_elem_of_filter in Hm0 as [Hk Hm0]. by destruct (Hno m0).
Qed.

Lemma merge_group_labels (right : DataFrame) (k : cell) (r : row) :
  ∃ g, (match filter (λ m : row, m.1 = k) (rows right) with
        | [] => [(r.1, r.2 ++ replicate (length (schema right)) NaN)]
        | ms => (λ m : row, (r.1, r.2 ++ m.2)) <$> ms
        end).*1 = r.1 :: g.
Proof.
  destruct (filter (λ m : row, m.1 = k) (rows right)) as [|m0 ms];
    csimpl; eauto.
Qed.

Lemma bind_heads_sublist {A} (lab : A → cell) (f : A → list row)
    (l : list A) :
  (∀ x, ∃ g, (f x).*1 = lab x :: g) →
  (lab <$> l) `sublist_of` (l ≫= f).*1.
Proof.
  intros Hf. induction l as [|x l IH]; csimpl; [done |].
  rewrite fmap_app. destruct (Hf x) as [g ->]. simpl.
  apply sublist_skip. by apply sublist_inserts_l.
Qed.

(** X12.  Whatever the keys of the macro table, repeated or not, the
    join returns exactly when the transaction table has the key column,
    and then its rows are these: for every transaction row and every
    macro row whose label is the row's key, the transaction row followed
    by the cells of the macro row; and for every transaction row whose
    key is no macro label, the transaction row followed by missing
    values.  No transaction row is lost, and the labels of the
    transaction table are found in the result in their order. *)
Theorem merge_left_rows_spec left right key :
  (key ∉ columns left →
     merge_left left right key = Raise (KeyError key)) ∧
  (key ∈ columns left →
     ∃ out, merge_left left right key = Ok out ∧
       (∀ r', r' ∈ rows out ↔
          ∃ r, r ∈ rows left ∧
            ((∃ m, m ∈ rows right ∧ m.1 = field left key r ∧
                   r' = (r.1, r.2 ++ m.2)) ∨
             ((∀ m, m ∈ rows right → m.1 ≠ field left key r) ∧
              r' = (r.1, r.2 ++ replicate (length (columns right)) NaN)))) ∧
       index left `sublist_of` index out ∧
       (length (rows left) ≤ length (rows out))%nat).
Proof.
  split.
  - intros Hk%col_pos_None. unfold merge_left, get_loc. by rewrite Hk.
  - intros [j Hj]%col_pos_elem_of. unfold merge_left, get_loc. rewrite Hj.
    cbn [mbind result_bind]. eexists. split; [done |]. rewrite rows_mk.
    assert (index left
            `sublist_of` (r ← rows left;
               match filter (λ m : row, m.1 = cell_at j r) (rows right) with
               | [] => [(r.1, r.2 ++ replicate (length (schema right)) NaN)]
               | ms => (λ m : row, (r.1, r.2 ++ m.2)) <$> ms
               end).*1) as Hsub.
    { apply (bind_heads_sublist fst). intros r.
      apply merge_group_labels. }
    split; [|split; [done |]].
    + intros r'. rewrite list_elem_of_bind. split.
      * intros (r & Hr' & Hr). exists r. split; [done |].
        rewrite (field_at left key j r Hj), columns_length.
        by apply merge_group_spec.
      * intros (r & Hr & H). exists r. split; [|done].
        rewrite (field_at left key j r Hj), columns_length in H.
        by apply merge_group_spec.
    + apply sublist_length in Hsub. unfold index in Hsub.
      by rewrite !length_fmap in Hsub.
Qed.

(** ** Imputer: edge cases *)

Lemma omap_length_lt {A B} (f : A → option B) (l : list A) x :
  x ∈ l → f x = None → (length (omap f l) < length l)%nat.
Proof.
  intros Hx Hf. induction l as [|a l IH]; [by apply elem_of_nil in Hx |].
  assert (length (omap f l) ≤ length l)%nat as Hle.
  { clear. induction l as [|b l IH]; csimpl; [done |].
    destruct (f b); simpl; lia. }
  csimpl. apply elem_of_cons in Hx as [<-|Hx].
  - rewrite Hf. simpl. lia.
  - specialize (IH Hx). destruct (f a); simpl; lia.
Qed.

Lemma transform_row_short n M x j :
  (j < length x)%nat → valid_column M j = false →
  (length (transform_row n M x) < length x)%nat.
Proof.
  intros Hj Hv. unfold transform_row.
  rewrite <-(length_seq (length x) 0) at 2.
  apply (omap_length_lt _ _ j); [apply elem_of_seq; lia | by rewrite Hv].
Qed.

Lemma check_rows_total (X : list (list cell)) :
  Forall (Forall (λ c, ∀ s, c ≠ Str s)) X →
  ∃ M, mapR (mapR check_cell) X = Ok M ∧
       Forall2 (λ x m, mapR check_cell x = Ok m) X M.
Proof.
  intros Hnum. destruct (mapR_total (mapR check_cell) X) as [M HM].
  { intros x Hx. apply mapR_total. intros c Hc.
    rewrite Forall_forall in Hnum. specialize (Hnum x Hx).
    rewrite Forall_forall in Hnum. specialize (Hnum c Hc).
    destruct c; simpl; try by eexists. by destruct (Hnum s). }
  exists M. split; [done | by apply mapR_Ok].
Qed.

(** X13.  A column in which every value is missing makes the macro
    imputer fail: the imputed array has lost that column and no longer
    fits the column names ([ValueError]). *)
Theorem impute_missing_values_macro_empty_column df j :
  rectangular df → rows df ≠ [] →
  (∀ r c s, r ∈ rows df → c ∈ r.2 → c ≠ Str s) →
  (j < length (schema df))%nat →
  (∀ r, r ∈ rows df → cell_at j r = NaN) →
  impute_missing_values_macro df = Raise ValueError.
Proof.
  intros Hrect Hne Hnum Hj Hnan.
  destruct (check_rows_total (values df)) as (M & HM & HF).
  { unfold values. apply Forall_fmap, Forall_forall. intros r Hr.
    apply Forall_forall. intros c Hc s. by eapply Hnum. }
  pose proof (rectangular_values df Hrect) as Hw.
  rewrite columns_length in Hw.
  assert (Forall (λ m : list (option Qc), length m = length (schema df)) M)
    as HMw.
  { apply Forall_forall. intros m [i Hm]%list_elem_of_lookup.
    destruct (Forall2_lookup_r _ _ _ _ _ HF Hm) as (x & Hx & Hxm).
    apply mapR_length in Hxm. rewrite Hxm.
    rewrite Forall_forall in Hw. apply Hw. by eapply list_elem_of_lookup_2. }
  assert (valid_column M j = false) as Hv.
  { apply bool_decide_eq_false. intros (m & Hm & [v Hmv])%Exists_exists.
    apply list_elem_of_lookup in Hm as [i Hm].
    destruct (Forall2_lookup_r _ _ _ _ _ HF Hm) as (x & Hx & Hxm).
    destruct (check_row_entry x m j Hxm) as [_ He]. rewrite Hmv in He.
    unfold values in Hx. apply list_lookup_fmap_Some_1 in Hx as (r & -> & Hr).
    specialize (Hnan r (list_elem_of_lookup_2 _ _ _ Hr)).
    unfold cell_at in Hnan. by rewrite He in Hnan. }
  destruct M as [|m M].
  { apply Forall2_nil_inv_r in HF. unfold values in HF.
    by apply fmap_nil_inv in HF. }
  pose proof HMw as HMw'. apply Forall_cons in HMw' as [Hm _].
  unfold impute_missing_values_macro, fit_transform, check_array.
  rewrite HM. cbn [mbind result_bind].
  destruct m as [|v m]; [simpl in Hm; lia |].
  cbn [mbind result_bind]. unfold new_DataFrame.
  rewrite decide_False; [done |].
  rewrite fmap_cons, Forall_cons. intros [Hlen _].
  pose proof (transform_row_short 5 (( v :: m) :: M) (v :: m) j) as Hshort.
  rewrite columns_length in Hlen. rewrite Hlen, Hm in Hshort.
  specialize (Hshort Hj Hv). lia.
Qed.

(** X14.  A macro table without missing value passes through the macro
    imputer with its rows unchanged, labels and cells; only the dtypes
    become float64. *)
Theorem impute_missing_values_macro_complete df :
  rectangular df → rows df ≠ [] → schema df ≠ [] →
  (∀ r c, r ∈ rows df → c ∈ r.2 → ∃ q, c = Num q) →
  impute_missing_values_macro df
  = Ok (mkDF ((λ c, (c, Float64)) <$> columns df) (rows df)).
Proof.
  intros Hrect Hne Hsch Hnum.
  pose proof (rectangular_values df Hrect) as Hw.
  destruct (fit_transform_returns 5 (values df) (length (columns df)))
    as (Y & HY & HYw); [| | done | | |].
  - unfold values. by destruct (rows df).
  - rewrite columns_length. destruct (schema df); [done | simpl; lia].
  - unfold values. apply Forall_fmap, Forall_forall. intros r Hr.
    apply Forall_forall. intros c Hc s ->. by destruct (Hnum r _ Hr Hc).
  - intros j Hj. destruct (rows df) as [|r rs] eqn:Hrows; [done |].
    assert (length r.2 = length (columns df)) as Hr.
    { rewrite Forall_forall in Hw. apply Hw. unfold values.
      rewrite Hrows. left. }
    destruct (lookup_lt_is_Some_2 r.2 j) as [c Hc]; [lia |].
    destruct (Hnum r c) as [q ->]; [left | by eapply list_elem_of_lookup_2 |].
    exists r.2, q. split; [|done]. unfold values. rewrite Hrows. left.
  - destruct (fit_transform_spec 5 _ Y _ ltac:(lia) HY Hw HYw) as [Hlen Hspec].
    assert (Y = values df) as ->.
    { apply list_eq_same_length with (length Y); [done | done |].
      intros i y x Hi Hy Hx. rewrite Forall_forall in Hw, HYw.
      apply list_eq_same_length with (length (columns df));
        [apply Hw; exact (list_elem_of_lookup_2 _ _ _ Hx)
        | apply HYw; exact (list_elem_of_lookup_2 _ _ _ Hy) |].
      intros j c c' Hj Hc Hc'.
      unfold values in Hx. apply list_lookup_fmap_Some_1 in Hx as (r & -> & Hr).
      destruct (Hnum r c') as [q ->];
        [by eapply list_elem_of_lookup_2 | by eapply list_elem_of_lookup_2 |].
      destruct (Hspec i r.2 y j) as [_ Hkeep];
        [by apply values_lookup | done | done |].
      rewrite (Hkeep q Hc') in Hc. by injection Hc. }
    unfold impute_missing_values_macro. rewrite HY. cbn [mbind result_bind].
    unfold new_DataFrame. rewrite decide_True by done.
    cbn [mbind result_bind]. unfold set_index.
    rewrite decide_True.
    + do 2 f_equal. unfold values at 1. rewrite rows_mk.
      rewrite snd_zip by (rewrite RangeIndex_length; lia).
      unfold index, values. apply zip_fst_snd.
    + rewrite rows_mk, length_zip_with, RangeIndex_length.
      unfold index. rewrite length_fmap, values_length. lia.
Qed.


(** ** The pipeline for the data tables, end to end *)

Lemma setitem_series_length df ref name out :
  rows df ≠ [] → setitem_series df ref name = Ok out →
  length (rows out) = length (rows df).
Proof.
  intros Hne H. unfold setitem_series in H.
  apply bind_Ok in H as (s & _ & H). apply bind_Ok in H as (dt & _ & H).
  rewrite decide_False in H by (by intros [? _]).
  repeat case_decide; try done; by apply setitem_rows_length in H.
Qed.

Lemma encode_step_length py df f out :
  encode_step py df f = Ok out → length (rows out) = length (rows df).
Proof.
  unfold encode_step. intros H. apply bind_Ok in H as (dt & _ & H).
  destruct (_ && _); [|by simplify_eq].
  unfold encode_column in H.
  apply bind_Ok in H as (s & _ & H). apply bind_Ok in H as (s' & _ & H).
  apply bind_Ok in H as (codes & _ & H). by apply setitem_rows_length in H.
Qed.

Lemma encode_loop_length py names : ∀ df out,
  foldR (encode_step py) names df = Ok out →
  length (rows out) = length (rows df).
Proof.
  induction names as [|f names IH]; intros df out H; simpl in H.
  - by simplify_eq.
  - apply bind_Ok in H as (df1 & H1 & H).
    rewrite (IH _ _ H). by eapply encode_step_length.
Qed.

Lemma handle_bad_data_index df out :
  handle_bad_data df = Ok out →
  schema out = schema df ∧ index out `sublist_of` index df.
Proof.
  intros (dfK & js & m & HK & Hjs & Hm & ->)%handle_bad_data_inv.
  destruct (removals_rows _ _ _ HK) as (Hs & _ & _).
  pose proof (removals_sublist _ _ _ HK) as Hsl.
  split; [done |].
  unfold index. rewrite rows_mk, <-list_fmap_compose.
  assert (fst ∘ set_where js (num 33) m <$> rows dfK = (rows dfK).*1)
    as -> by (apply list_fmap_ext; intros i r _; apply set_where_fst).
  by apply fmap_sublist.
Qed.

(** X16.  The cleaned data table no longer carries the ids of its input:
    its row labels are positions among 0 .. n-1, n the number of input
    rows, in increasing order, and its last column is the timestamp,
    which occurs nowhere else among the columns. *)
Theorem clean_data_labels py df ref_df out :
  rows df ≠ [] → clean_data py df ref_df = Ok out →
  index out `sublist_of` RangeIndex (length (rows df)) ∧
  ∃ names, columns out = names ++ ["timestamp"] ∧ "timestamp" ∉ names.
Proof.
  intros Hne H. unfold clean_data in H.
  apply bind_Ok in H as (df1 & H1 & H).
  change (call py "truncate_extreme_values" df1)
    with (truncate_extreme_values df1) in H.
  rewrite truncate_extreme_values_id in H. cbn [mbind result_bind] in H.
  apply bind_Ok in H as (df2 & H2 & H).
  apply bind_Ok in H as (df3 & H3 & H).
  apply bind_Ok in H as (df4 & H4 & H). simplify_eq.
  change (handle_bad_data df3 = Ok out) in H4.
  change (impute_missing_values_data df2 = Ok df3) in H3.
  change (convert_categorical_to_numerical py df1 = Ok df2) in H2.
  assert (length (rows df1) = length (rows df)) as Hl1.
  { unfold correct_lon_lat in H1.
    apply bind_Ok in H1 as (a & Ha & H1). apply bind_Ok in H1 as (b & Hb & H1).
    simplify_eq. pose proof (setitem_series_length _ _ _ _ Hne Ha) as Hla.
    rewrite <-Hla. apply (setitem_series_length _ _ _ _) in Hb; [done |].
    intros Hnil. rewrite Hnil in Hla. by destruct (rows df). }
  assert (length (rows df2) = length (rows df1)) as Hl2
    by exact (encode_loop_length py (columns df1) df1 df2 H2).
  pose proof (impute_missing_values_data_index _ _ H3) as Hi3.
  destruct (impute_data_inv _ _ H3) as (jt & Y & _ & _ & _ & _ & Hc3 & _).
  destruct (handle_bad_data_index _ _ H4) as [Hs Hsl].
  split.
  - rewrite Hi3, Hl2, Hl1 in Hsl. exact Hsl.
  - eexists. unfold columns at 1. rewrite Hs. split; [exact Hc3 |].
    intros [Hc _]%list_elem_of_filter. by apply Hc.
Qed.

(** ** The properties above on the example frames *)

Lemma handle_bad_data_frame_witness :
  handle_bad_data ex_survey = Ok ex_survey_filtered ∧
  schema ex_survey_filtered = schema ex_survey ∧
  index ex_survey_filtered `sublist_of` index ex_survey ∧
  ∀ r', r' ∈ rows ex_survey_filtered →
    ∃ r, r ∈ rows ex_survey ∧ r'.1 = r.1 ∧
         ∀ c, c ≠ "state" →
              field ex_survey_filtered c r' = field ex_survey c r.
Proof.
  assert (handle_bad_data ex_survey = Ok ex_survey_filtered) as H
    by (vm_compute; reflexivity).
  split; [done |]. exact (handle_bad_data_frame ex_survey _ H).
Defined.

Lemma handle_bad_data_needs_columns_witness :
  handle_bad_data ex_survey = Ok ex_survey_filtered ∧
  filter_columns ⊆ columns ex_survey.
Proof.
  assert (handle_bad_data ex_survey = Ok ex_survey_filtered) as H
    by (vm_compute; reflexivity).
  split; [done |]. exact (handle_bad_data_needs_columns ex_survey _ H).
Defined.

Lemma handle_bad_data_nonempty_witness :
  handle_bad_data ex_survey = Ok ex_survey_filtered ∧
  rows ex_survey_filtered ≠ [] ∧ rows ex_survey ≠ [].
Proof.
  assert (handle_bad_data ex_survey = Ok ex_survey_filtered) as H
    by (vm_compute; reflexivity).
  split; [done |]. exact (handle_bad_data_nonempty ex_survey _ H).
Defined.

Lemma handle_bad_data_empty_witness :
  rows ex_survey_empty = [] ∧ filter_columns ⊆ columns ex_survey_empty ∧
  handle_bad_data ex_survey_empty = Raise IndexError.
Proof.
  assert (rows ex_survey_empty = []) as H1 by reflexivity.
  assert (filter_columns ⊆ columns ex_survey_empty) as H2 by by_decide.
  split; [done |]. split; [done |].
  exact (handle_bad_data_empty ex_survey_empty H1 H2).
Defined.

Lemma handle_bad_data_removes_label_witness :
  handle_bad_data ex_survey = Ok ex_survey_filtered ∧
  rule_test ex_survey (Rule2 OpGt "life_sq" "full_sq")
    (num 0, num <$> [50; 80; 5; 2; 9; 2000; 2; 1; 1; 1; 1]) = Ok true ∧
  num 0 ∉ index ex_survey_filtered.
Proof.
  assert (handle_bad_data ex_survey = Ok ex_survey_filtered) as H
    by (vm_compute; reflexivity).
  assert (Rule2 OpGt "life_sq" "full_sq" ∈ removal_rules) as Hru
    by apply list_elem_of_here.
  assert ((num 0, num <$> [50; 80; 5; 2; 9; 2000; 2; 1; 1; 1; 1])
            ∈ rows ex_survey) as Hr by apply list_elem_of_here.
  assert (rule_test ex_survey (Rule2 OpGt "life_sq" "full_sq")
            (num 0, num <$> [50; 80; 5; 2; 9; 2000; 2; 1; 1; 1; 1]) = Ok true)
    as Ht by (vm_compute; reflexivity).
  split; [done |]. split; [done |].
  exact (handle_bad_data_removes_label ex_survey _ _ _ H Hru Hr Ht).
Defined.

Lemma convert_categorical_to_numerical_idempotent_witness :
  rectangular ex_categorical ∧
  convert_categorical_to_numerical ex_py_str_num ex_categorical
    = Ok ex_categorical_encoded ∧
  convert_categorical_to_numerical ex_py_str_num ex_categorical_encoded
    = Ok ex_categorical_encoded.
Proof.
  assert (rectangular ex_categorical) as H1 by (by repeat constructor).
  assert (convert_categorical_to_numerical ex_py_str_num ex_categorical
          = Ok ex_categorical_encoded) as H2 by (vm_compute; reflexivity).
  split; [done |]. split; [done |].
  exact (convert_categorical_to_numerical_idempotent
           ex_py_str_num ex_categorical _ H1 H2).
Defined.

Lemma correct_lon_lat_ref_order_witness :
  rows ex_listing ≠ [] ∧ NoDup (index ex_geo) ∧
  schema ex_geo_sorted = schema ex_geo ∧
  rows ex_geo_sorted ≡ₚ rows ex_geo ∧
  correct_lon_lat ex_listing ex_geo_sorted = correct_lon_lat ex_listing ex_geo.
Proof.
  assert (rows ex_listing ≠ []) as H1 by done.
  assert (NoDup (index ex_geo)) as H2 by by_decide.
  assert (schema ex_geo_sorted = schema ex_geo) as H3 by reflexivity.
  assert (rows ex_geo_sorted ≡ₚ rows ex_geo) as H4 by apply perm_swap.
  do 4 (split; [done |]).
  exact (correct_lon_lat_ref_order ex_listing ex_geo ex_geo_sorted H1 H2 H3 H4).
Defined.

Lemma correct_lon_lat_aligned_witness :
  rectangular ex_listing ∧ NoDup (index ex_geo_sorted) ∧
  correct_lon_lat ex_listing ex_geo_sorted = Ok ex_listing_geo ∧
  index ex_listing_geo = index ex_listing ∧
  ∀ i r r', rows ex_listing !! i = Some r → rows ex_listing_geo !! i = Some r' →
    (∀ m, m ∈ rows ex_geo_sorted → m.1 = r.1 →
          field ex_listing_geo "lon" r' = field ex_geo_sorted "lon" m ∧
          field ex_listing_geo "lat" r' = field ex_geo_sorted "lat" m) ∧
    ((∀ m, m ∈ rows ex_geo_sorted → m.1 ≠ r.1) →
     field ex_listing_geo "lon" r' = NaN ∧
     field ex_listing_geo "lat" r' = NaN) ∧
    (∀ c, c ≠ "lon" → c ≠ "lat" → c ∈ columns ex_listing →
          field ex_listing_geo c r' = field ex_listing c r).
Proof.
  assert (rectangular ex_listing) as H1 by (by repeat constructor).
  assert (rows ex_listing ≠ []) as H2 by done.
  assert (NoDup (index ex_geo_sorted)) as H3 by by_decide.
  assert (correct_lon_lat ex_listing ex_geo_sorted = Ok ex_listing_geo) as H4
    by (vm_compute; reflexivity).
  do 3 (split; [done |]).
  exact (correct_lon_lat_aligned ex_listing ex_geo_sorted _ H1 H2 H3 H4).
Defined.

Lemma merge_left_rows_spec_witness :
  "timestamp" ∈ columns ex_transactions_imputed ∧
  ∃ out,
    merge_left ex_transactions_imputed ex_macro_repeated "timestamp" = Ok out ∧
    (∀ r', r' ∈ rows out ↔
       ∃ r, r ∈ rows ex_transactions_imputed ∧
         ((∃ m, m ∈ rows ex_macro_repeated ∧
                m.1 = field ex_transactions_imputed "timestamp" r ∧
                r' = (r.1, r.2 ++ m.2)) ∨
          ((∀ m, m ∈ rows ex_macro_repeated →
                 m.1 ≠ field ex_transactions_imputed "timestamp" r) ∧
           r' = (r.1, r.2 ++ replicate (length (columns ex_macro_repeated))
                                NaN)))) ∧
    index ex_transactions_imputed `sublist_of` index out ∧
    (length (rows ex_transactions_imputed) ≤ length (rows out))%nat.
Proof.
  assert ("timestamp" ∈ columns ex_transactions_imputed) as H by by_decide.
  split; [done |].
  exact (proj2 (merge_left_rows_spec
                  ex_transactions_imputed ex_macro_repeated "timestamp") H).
Defined.

Lemma impute_missing_values_macro_empty_column_witness :
  rectangular ex_macro_blank ∧ rows ex_macro_blank ≠ [] ∧
  (0 < length (schema ex_macro_blank))%nat ∧
  (∀ r, r ∈ rows ex_macro_blank → cell_at 0 r = NaN) ∧
  impute_missing_values_macro ex_macro_blank = Raise ValueError.
Proof.
  assert (rectangular ex_macro_blank) as H1 by (by repeat constructor).
  assert (rows ex_macro_blank ≠ []) as H2 by done.
  assert (∀ r c s, r ∈ rows ex_macro_blank → c ∈ r.2 → c ≠ Str s) as H3.
  { intros r c s Hr Hc ->. revert r Hr Hc.
    apply (proj1 (Forall_forall (λ r : row, Str s ∈ r.2 → False) _)).
    repeat constructor; simpl; intros Hc;
      repeat (apply elem_of_cons in Hc as [Hc|Hc]; [done |]);
      by apply elem_of_nil in Hc. }
  assert (0 < length (schema ex_macro_blank))%nat as H4 by (simpl; lia).
  assert (∀ r, r ∈ rows ex_macro_blank → cell_at 0 r = NaN) as H5
    by (apply (proj1 (Forall_forall (λ r : row, cell_at 0 r = NaN) _));
        by repeat constructor).
  do 4 (split; [done |]).
  exact (impute_missing_values_macro_empty_column ex_macro_blank 0
           H1 H2 H3 H4 H5).
Defined.

Lemma impute_missing_values_macro_complete_witness :
  rectangular ex_macro_imputed ∧ rows ex_macro_imputed ≠ [] ∧
  schema ex_macro_imputed ≠ [] ∧
  impute_missing_values_macro ex_macro_imputed
  = Ok (mkDF ((λ c, (c, Float64)) <$> columns ex_macro_imputed)
          (rows ex_macro_imputed)).
Proof.
  assert (rectangular ex_macro_imputed) as H1 by (by repeat constructor).
  assert (rows ex_macro_imputed ≠ []) as H2 by done.
  assert (schema ex_macro_imputed ≠ []) as H3 by done.
  assert (∀ r c, r ∈ rows ex_macro_imputed → c ∈ r.2 → ∃ q, c = Num q) as H4.
  { intros r c Hr. revert c. revert r Hr.
    apply (proj1 (Forall_forall
                    (λ r : row, ∀ c, c ∈ r.2 → ∃ q, c = Num q) _)).
    repeat constructor; simpl; intros c Hc;
      repeat (apply elem_of_cons in Hc as [->|Hc]; [by eexists |]);
      by apply elem_of_nil in Hc. }
  do 3 (split; [done |]).
  exact (impute_missing_values_macro_complete ex_macro_imputed H1 H2 H3 H4).
Defined.


Lemma clean_data_labels_witness :
  rows ex_listing ≠ [] ∧
  clean_data ex_py_str_num ex_listing ex_geo_sorted = Ok ex_listing_clean ∧
  index ex_listing_clean `sublist_of` RangeIndex (length (rows ex_listing)) ∧
  ∃ names, columns ex_listing_clean = names ++ ["timestamp"] ∧
           "timestamp" ∉ names.
Proof.
  assert (rows ex_listing ≠ []) as H1 by done.
  assert (clean_data ex_py_str_num ex_listing ex_geo_sorted
          = Ok ex_listing_clean) as H2 by (vm_compute; reflexivity).
  do 2 (split; [done |]).
  exact (clean_data_labels ex_py_str_num ex_listing ex_geo_sorted _ H1 H2).
Defined.

Lemma impute_missing_values_macro_returns_witness :
  rectangular ex_macro ∧ rows ex_macro ≠ [] ∧ schema ex_macro ≠ [] ∧
  NoDup (columns ex_macro) ∧
  ∃ out, impute_missing_values_macro ex_macro = Ok out.
Proof.
  assert (rectangular ex_macro) as H1 by (by repeat constructor).
  assert (rows ex_macro ≠ []) as H2 by done.
  assert (schema ex_macro ≠ []) as H3 by done.
  assert (∀ r c s, r ∈ rows ex_macro → c ∈ r.2 → c ≠ Str s) as H4.
  { intros r c s Hr Hc ->. revert r Hr Hc.
    apply (proj1 (Forall_forall (λ r : row, Str s ∈ r.2 → False) _)).
    repeat constructor; simpl; intros Hc;
      repeat (apply elem_of_cons in Hc as [Hc|Hc]; [done |]);
      by apply elem_of_nil in Hc. }
  assert (∀ f, f ∈ columns ex_macro →
            ∃ r q, r ∈ rows ex_macro ∧ field ex_macro f r = Num q) as H5.
  { apply (proj1 (Forall_forall
                    (λ f, ∃ r q, r ∈ rows ex_macro
                                 ∧ field ex_macro f r = Num q) _)).
    repeat constructor;
      (eexists _, _; split; [apply list_elem_of_here | reflexivity]). }
  assert (NoDup (columns ex_macro)) as H6 by by_decide.
  do 4 (split; [done |]).
  exact (impute_missing_values_macro_returns ex_macro H1 H2 H3 H4 H5 H6).
Defined.
